(** * sum_numbers.py: a command-line adder of two floating-point numbers

    The script reads [sys.argv], converts the two operands with Python's
    [float], adds them and prints the sum.  This development embeds the
    script together with the parts of the Python runtime it calls:

    - [B64]: IEEE-754 binary64 values as [spec_float] (precision 53,
      [emax] 1024) and their addition [SFadd];
    - [PyFloat]: [float(str)], the lexical rules of CPython's
      [float_new]/[_Py_dg_strtod] and the correctly rounded conversion of
      a decimal to binary64;
    - [PyRepr]: [repr(float)], the shortest digit string that rounds back
      (mode 0 of David Gay's [dtoa]) and CPython's ['r'] layout;
    - [Script]: [main] itself, written in a small monad for standard
      output and exceptions, and the runs of the script as a relation.

    A Python [str] is a [string] holding one [ascii] per code point, so
    the argument strings covered are those whose code points lie below
    256.  A NaN carries neither sign nor payload: the script only ever
    prints it, and CPython prints every NaN as [nan]. *)

From Stdlib Require Import ZArith List String Ascii Bool Lia.
From Stdlib Require Import Floats.SpecFloat.
Import ListNotations.

Local Open Scope Z_scope.

(** ** Binary64 *)

Module B64.

Definition prec : Z := 53.
Definition emax : Z := 1024.

Definition float := spec_float.

(** [num1 + num2] on Python floats. *)
Definition add (x y : float) : float := SFadd prec emax x y.

Definition valid (x : float) : bool := valid_binary prec emax x.

Definition is_nan (x : float) : bool :=
  match x with S754_nan => true | _ => false end.

Definition is_finite (x : float) : bool :=
  match x with S754_zero _ | S754_finite _ _ _ => true | _ => false end.

End B64.

(** ** Characters and digit strings *)

Definition code (c : ascii) : Z := Z.of_N (N_of_ascii c).

Definition digit_of_ascii (c : ascii) : option Z :=
  let n := code c in
  if (48 <=? n) && (n <=? 57) then Some (n - 48) else None.

Definition ascii_of_digit (d : Z) : ascii := ascii_of_N (Z.to_N (d + 48)).

Definition is_digit (c : ascii) : bool :=
  match digit_of_ascii c with Some _ => true | None => false end.

(** Value of a list of decimal digits, most significant first. *)
Definition digits_value (ds : list Z) : Z :=
  fold_left (fun acc d => 10 * acc + d) ds 0.

(** The numerator part of [b ^ z]: [b ^ z] when [z] is non-negative and 1
    otherwise, so that [b ^ z] is [scale b z / scale b (- z)]. *)
Definition scale (b z : Z) : Z := b ^ Z.max z 0.

(** ** [float(str)] *)

Module PyFloat.

Import B64.

(** [Py_ISSPACE]: tab, line feed, vertical tab, form feed, carriage
    return and space. *)
Definition Py_ISSPACE (c : ascii) : bool :=
  let n := code c in ((9 <=? n) && (n <=? 13)) || (n =? 32).

(** [Py_UNICODE_ISSPACE] at the code points from 127 to 255: NEL and
    NBSP. *)
Definition unicode_space_high (c : ascii) : bool :=
  let n := code c in (n =? 133) || (n =? 160).

(** [_PyUnicode_TransformDecimalAndSpaceToASCII]: an ASCII string is
    returned as it is; otherwise code points below 127 are kept, a
    Unicode space becomes a blank, and the first other character (no
    code point from 127 to 255 is a decimal digit) becomes ['?'] and ends
    the string. *)
Fixpoint transform_chars (l : list ascii) : list ascii :=
  match l with
  | [] => []
  | c :: r =>
      if code c <? 127 then c :: transform_chars r
      else if unicode_space_high c then " "%char :: transform_chars r
      else ["?"%char]
  end.

Definition transform (l : list ascii) : list ascii :=
  if forallb (fun c => code c <? 128) l then l else transform_chars l.

Fixpoint lstrip (l : list ascii) : list ascii :=
  match l with
  | c :: r => if Py_ISSPACE c then lstrip r else l
  | [] => []
  end.

(** Trailing blanks are dropped while more than one character is left, so
    the first character always stays. *)
Definition rstrip (l : list ascii) : list ascii :=
  match l with
  | [] => []
  | c :: r => c :: rev (lstrip (rev r))
  end.

(** [_Py_string_to_number_with_underscores]: an underscore must stand
    between two digits; the underscores are then removed. *)
Fixpoint strip_underscores (prev : ascii) (l : list ascii)
  : option (list ascii) :=
  match l with
  | [] => if Ascii.eqb prev "_" then None else Some []
  | c :: r =>
      if Ascii.eqb c "_" then
        if is_digit prev then strip_underscores c r else None
      else if Ascii.eqb prev "_" && negb (is_digit c) then None
      else option_map (cons c) (strip_underscores c r)
  end.

Definition remove_underscores (l : list ascii) : option (list ascii) :=
  if existsb (Ascii.eqb "_") l then strip_underscores zero l else Some l.

(** *** The lexical part of [_Py_dg_strtod] *)

Definition parse_sign (l : list ascii) : bool * list ascii :=
  match l with
  | "-"%char :: r => (true, r)
  | "+"%char :: r => (false, r)
  | _ => (false, l)
  end.

Fixpoint take_digits (l : list ascii) : list Z * list ascii :=
  match l with
  | [] => ([], [])
  | c :: r =>
      match digit_of_ascii c with
      | Some d => let '(ds, rest) := take_digits r in (d :: ds, rest)
      | None => ([], l)
      end
  end.

(** A decimal numeral as read: sign, digits before and after the point,
    exponent. *)
Record numeral := Numeral {
  num_sign : bool;
  num_int : list Z;
  num_frac : list Z;
  num_exp : Z
}.

Definition is_e (c : ascii) : bool := Ascii.eqb c "e" || Ascii.eqb c "E".

(** After the sign: digits with an optional point (at least one digit),
    then an optional exponent with at least one digit, up to the end of
    the string. *)
Definition lex_unsigned (s : bool) (l1 : list ascii) : option numeral :=
  let '(ip, l2) := take_digits l1 in
  let '(fp, l3) :=
    match l2 with
    | "."%char :: r => take_digits r
    | _ => ([], l2)
    end in
  match ip, fp with
  | [], [] => None
  | _, _ =>
      match l3 with
      | [] => Some (Numeral s ip fp 0)
      | c :: r =>
          if is_e c then
            let '(es, r1) := parse_sign r in
            match take_digits r1 with
            | (d :: ed, []) =>
                Some (Numeral s ip fp (cond_Zopp es (digits_value (d :: ed))))
            | _ => None
            end
          else None
      end
  end.

(** The whole string has to be a numeral. *)
Definition lex_numeral (l : list ascii) : option numeral :=
  let '(s, l1) := parse_sign l in lex_unsigned s l1.

Definition starts_with_digit (l : list ascii) : bool :=
  match l with
  | c :: _ => is_digit c
  | [] => false
  end.

(** Characters that [float] neither strips nor rewrites: ASCII, no blank,
    no underscore. *)
Definition plain_char (c : ascii) : bool :=
  (code c <? 127) && negb (Py_ISSPACE c) && negb (Ascii.eqb c "_").

(** *** Correct rounding of a positive rational to binary64 *)

(** [floor (log2 (n / d))] for positive [n >= d]; negative when [n < d]. *)
Definition ilog2_ratio (n d : Z) : Z :=
  let l := Z.log2 n - Z.log2 d in
  if n <? d * 2 ^ l then l - 1 else l.

(** The quotient of [n] by [den] rounded to the nearest integer, ties to
    the even one. *)
Definition round_quotient (n den : Z) : Z :=
  let q := n / den in
  let r := n mod den in
  match 2 * r ?= den with
  | Lt => q
  | Eq => if Z.even q then q else q + 1
  | Gt => q + 1
  end.

(** The binary64 nearest to [n / d], ties to the even significand,
    infinity from [2^1024 - 2^970] on: the result of [_Py_dg_strtod].
    The value is first expressed in units of [2^-1074], the smallest
    positive binary64; the significand is its quotient by [2^t], where
    [t] leaves it 53 bits, or fewer when the result is subnormal. *)
Definition round_ratio (s : bool) (n d : Z) : float :=
  let n' := n * 2 ^ 1074 in
  let t := Z.max (ilog2_ratio n' d - 52) 0 in
  let q := round_quotient n' (d * 2 ^ t) in
  let '(m, t') := if q =? 2 ^ 53 then (2 ^ 52, t + 1) else (q, t) in
  match m with
  | Zpos p =>
      if t' - 1074 <=? emax - prec then S754_finite s p (t' - 1074)
      else S754_infinity s
  | _ => S754_zero s
  end.

Definition float_of_numeral (x : numeral) : float :=
  let m := digits_value (num_int x ++ num_frac x) in
  let e := num_exp x - Z.of_nat (List.length (num_frac x)) in
  if m =? 0 then S754_zero (num_sign x)
  else round_ratio (num_sign x) (m * scale 10 e) (scale 10 (- e)).

(** *** [_Py_parse_inf_or_nan] *)

Definition Py_TOLOWER (c : ascii) : ascii :=
  let n := code c in
  if (65 <=? n) && (n <=? 90) then ascii_of_N (Z.to_N (n + 32)) else c.

Definition lower_is (l : list ascii) (w : string) : bool :=
  String.eqb (string_of_list_ascii (map Py_TOLOWER l)) w.

Definition parse_inf_or_nan (l : list ascii) : option float :=
  let '(s, r) := parse_sign l in
  if lower_is r "inf" || lower_is r "infinity" then Some (S754_infinity s)
  else if lower_is r "nan" then Some S754_nan
  else None.

(** *** [float(s)]; [None] stands for [ValueError] *)

Definition float_of_chars (l : list ascii) : option float :=
  match lstrip (transform l) with
  | [] => None
  | c :: r =>
      match remove_underscores (rstrip (c :: r)) with
      | None => None
      | Some t =>
          match lex_numeral t with
          | Some x => Some (float_of_numeral x)
          | None => parse_inf_or_nan t
          end
      end
  end.

Definition float_of_string (s : string) : option float :=
  float_of_chars (list_ascii_of_string s).

End PyFloat.

(** ** [repr(float)] *)

Module PyRepr.

Import B64.

(** *** Shortest digits: [_Py_dg_dtoa] in mode 0

    This is the [repr] of a CPython whose [sys.float_repr_style] is
    ['short'].  The quantities [b], [S], [mlo] and [mhi] of [dtoa.c] are
    kept up to a common factor: [b / S] is the part of the value not yet
    printed, in units of the current digit, and [mlo / S], [mhi / S] are
    the distances to the midpoints with the neighbouring floats.  The
    shortcut of [dtoa.c] for small integers prints their exact digits,
    which is what the general loop below yields for them as well. *)

Record scaled := Scaled { sc_b : Z; sc_S : Z; sc_mlo : Z; sc_mhi : Z }.

(** The special case of [dtoa.c]: the significand is a power of two and
    the float below is only half as far away as the one above. *)
Definition boundary (m : positive) (e : Z) : bool :=
  (Zpos m =? 2 ^ 52) && (-1074 <? e).

(** The float [m * 2^e] before any digit: [b / S] is its value, with
    [S] a multiple of [2^1074] so that no exponent is negative. *)
Definition initial (m : positive) (e : Z) : scaled :=
  let f := if boundary m e then 2 else 1 in
  let t := e + 1074 in
  Scaled (2 * f * Zpos m * 2 ^ t) (2 * f * 2 ^ 1074) (2 ^ t) (f * 2 ^ t).

(** A first guess at [floor (log10 x)] from the binary exponent of [x]. *)
Definition log10_estimate (p : Z) : Z := (p * 78913) / 262144.

Definition apply_exponent (k : Z) (x : scaled) : scaled :=
  Scaled (sc_b x * scale 10 (- k)) (sc_S x * scale 10 k)
         (sc_mlo x * scale 10 (- k)) (sc_mhi x * scale 10 (- k)).

(** The decimal exponent [k] with [10^k <= x < 10^(k+1)] and the
    quantities scaled so that [b / S = x / 10^k]. *)
Definition scale_to_first_digit (m : positive) (e : Z) : Z * scaled :=
  let k := log10_estimate (Z.log2 (Zpos m) + e) in
  let x := apply_exponent k (initial m e) in
  if sc_b x <? sc_S x then
    (k - 1, Scaled (10 * sc_b x) (sc_S x) (10 * sc_mlo x) (10 * sc_mhi x))
  else if 10 * sc_S x <=? sc_b x then
    (k + 1, Scaled (sc_b x) (10 * sc_S x) (sc_mlo x) (sc_mhi x))
  else (k, x).

Definition is_Lt (c : comparison) : bool :=
  match c with Lt => true | _ => false end.
Definition is_Eq (c : comparison) : bool :=
  match c with Eq => true | _ => false end.
Definition is_Gt (c : comparison) : bool :=
  match c with Gt => true | _ => false end.

(** The digit loop.  Digits are collected last digit first; the boolean
    of the result tells that the last digit is a 9 to be rounded up
    ([round_9_up]).  [None] only when the fuel runs out. *)
Fixpoint digit_loop (fuel : nat) (even : bool) (b S mlo mhi : Z)
    (acc : list Z) : option (list Z * bool) :=
  match fuel with
  | O => None
  | Datatypes.S fuel' =>
      let dig := b / S in
      let b := b mod S in
      let j := b ?= mlo in
      let j1 := if S - mhi <? 0 then Gt else b ?= S - mhi in
      if is_Eq j1 && even then
        if dig =? 9 then Some (9 :: acc, true)
        else Some ((if is_Gt j then dig + 1 else dig) :: acc, false)
      else if is_Lt j || (is_Eq j && even) then
        if b =? 0 then Some (dig :: acc, false)
        else if is_Gt j1 then
          let j2 := 2 * b ?= S in
          if is_Gt j2 || (is_Eq j2 && Z.odd dig) then
            if dig =? 9 then Some (9 :: acc, true)
            else Some (dig + 1 :: acc, false)
          else Some (dig :: acc, false)
        else Some (dig :: acc, false)
      else if is_Gt j1 then
        if dig =? 9 then Some (9 :: acc, true)
        else Some (dig + 1 :: acc, false)
      else digit_loop fuel' even (10 * b) S (10 * mlo) (10 * mhi) (dig :: acc)
  end.

(** [roundoff]: trailing nines are dropped and the digit before them is
    incremented; when every digit was a nine the result is [1] and the
    exponent grows by one. *)
Fixpoint roundoff (acc : list Z) : list Z * bool :=
  match acc with
  | [] => ([1], true)
  | d :: r => if d =? 9 then roundoff r else (d + 1 :: r, false)
  end.

Definition loop_fuel (S : Z) : nat := Z.to_nat (Z.log2 S) + 2.

(** The digits of [m * 2^e], first digit first, and [decpt], the position
    of the decimal point relative to the first digit. *)
Definition dtoa (m : positive) (e : Z) : option (list Z * Z) :=
  let '(k, x) := scale_to_first_digit m e in
  match digit_loop (loop_fuel (sc_S x)) (Z.even (Zpos m))
          (sc_b x) (sc_S x) (sc_mlo x) (sc_mhi x) [] with
  | None => None
  | Some (acc, false) => Some (rev acc, k + 1)
  | Some (acc, true) =>
      let '(acc', carry) := roundoff acc in
      Some (rev acc', if carry then k + 2 else k + 1)
  end.

(** *** Layout: [format_float_short] with format code ['r'] *)

Definition render_digits (ds : list Z) : list ascii := map ascii_of_digit ds.

(** The decimal digits of a non-negative integer. *)
Fixpoint digits_of_fuel (fuel : nat) (n : Z) (acc : list Z) : list Z :=
  match fuel with
  | O => n :: acc
  | Datatypes.S fuel' =>
      if n <? 10 then n :: acc
      else digits_of_fuel fuel' (n / 10) (n mod 10 :: acc)
  end.

Definition digits_of (n : Z) : list Z :=
  digits_of_fuel (Z.to_nat (Z.log2 n)) n [].

(** [sprintf("%+.02d", exp)]. *)
Definition render_exponent (exp : Z) : list ascii :=
  let ds := digits_of (Z.abs exp) in
  (if exp <? 0 then "-"%char else "+"%char)
    :: render_digits (if Z.abs exp <? 10 then 0 :: ds else ds).

Definition zeros (n : Z) : list ascii := repeat "0"%char (Z.to_nat n).

(** The exponent form is used when [decpt <= -4] or [decpt > 16]; a
    whole number gets [.0] appended ([Py_DTSF_ADD_DOT_0]). *)
Definition layout (ds : list Z) (decpt : Z) : list ascii :=
  let n := Z.of_nat (List.length ds) in
  if (decpt <=? -4) || (16 <? decpt) then
    match ds with
    | [] => []
    | [d] => ascii_of_digit d :: "e"%char :: render_exponent (decpt - 1)
    | d :: r =>
        ascii_of_digit d :: "."%char :: render_digits r
          ++ "e"%char :: render_exponent (decpt - 1)
    end
  else if decpt <=? 0 then
    "0"%char :: "."%char :: zeros (- decpt) ++ render_digits ds
  else if decpt <? n then
    render_digits (firstn (Z.to_nat decpt) ds)
      ++ "."%char :: render_digits (skipn (Z.to_nat decpt) ds)
  else
    render_digits ds ++ zeros (decpt - n) ++ ["."%char; "0"%char].

Definition with_sign (s : bool) (l : list ascii) : list ascii :=
  if s then "-"%char :: l else l.

Definition repr_chars (x : float) : list ascii :=
  match x with
  | S754_nan => list_ascii_of_string "nan"
  | S754_infinity s => with_sign s (list_ascii_of_string "inf")
  | S754_zero s => with_sign s (layout [0] 1)
  | S754_finite s m e =>
      match dtoa m e with
      | Some (ds, decpt) => with_sign s (layout ds decpt)
      | None => []
      end
  end.

Definition repr (x : float) : string := string_of_list_ascii (repr_chars x).

(** *** The rounding interval

    [n / d] lies between the midpoints around the float described by
    [x]; the midpoints themselves belong to the interval when the
    significand is even, as ties round to even. *)

Definition bound (closed : bool) (a b : Z) : Prop :=
  if closed then a <= b else a < b.

Definition in_interval (closed : bool) (x : scaled) (n d : Z) : Prop :=
  bound closed ((sc_b x - sc_mlo x) * d) (sc_S x * n) /\
  bound closed (sc_S x * n) ((sc_b x + sc_mhi x) * d).

(** [num / den] is [b ^ z]. *)
Definition is_pow (b z num den : Z) : Prop :=
  0 < num /\ 0 < den /\ num * scale b (- z) = den * scale b z.

(** The guess [log10_estimate] is at most one off for a float whose
    leading bit has weight [2^(pb - 1074)]: it is checked on each of the
    2098 binades. *)
Definition estimate_ok (pb : Z) : bool :=
  let k := log10_estimate (pb - 1074) in
  (2 ^ 1074 * scale 10 k <=? 10 * 2 ^ pb * scale 10 (- k)) &&
  (2 ^ (pb + 1) * scale 10 (- k) <=? 100 * 2 ^ 1074 * scale 10 k).

Definition is_decimal_digit (d : Z) : Prop := 0 <= d <= 9.

(** What the digit loop has produced when it stops: new digits [nd] in
    front of [acc], whose value, plus one when the last nine is still to
    be rounded up, lies in the rounding interval. *)
Definition loop_result (ev : bool) (x : scaled) (acc : list Z)
    (r : list Z * bool) : Prop :=
  exists nd,
    fst r = rev nd ++ acc /\ nd <> [] /\ Forall is_decimal_digit nd /\
    in_interval ev x (digits_value nd + (if snd r then 1 else 0))
      (10 ^ (Z.of_nat (List.length nd) - 1)).

End PyRepr.

(** ** The script *)

Module Script.

Import B64.

Local Open Scope string_scope.

(** *** Standard output and exceptions *)

Inductive exn :=
| ValueError
| IndexError
| SystemExit (status : Z).

Inductive result (A : Type) :=
| Return (a : A)
| Raise (e : exn).
Arguments Return {A} a.
Arguments Raise {A} e.

(** A computation reads and extends what was written to standard output
    so far. *)
Definition Py (A : Type) : Type := string -> result A * string.

Definition ret {A} (a : A) : Py A := fun out => (Return a, out).

Definition bind {A B} (c : Py A) (k : A -> Py B) : Py B :=
  fun out =>
    match c out with
    | (Return a, out') => k a out'
    | (Raise e, out') => (Raise e, out')
    end.

Definition raise {A} (e : exn) : Py A := fun out => (Raise e, out).

Notation "x <- c ;; k" := (bind c (fun x => k))
  (at level 61, c at next level, right associativity).
Notation "c ;; k" := (bind c (fun _ => k))
  (at level 61, right associativity).

Definition newline : string := String (ascii_of_nat 10) EmptyString.

(** [print(s)] for a string [s]. *)
Definition print (s : string) : Py unit :=
  fun out => (Return tt, out ++ s ++ newline).

(** [print(x)] for a float [x] writes [repr(x)]. *)
Definition print_float (x : float) : Py unit := print (PyRepr.repr x).

(** [sys.exit(status)]. *)
Definition sys_exit {A} (status : Z) : Py A := raise (SystemExit status).

(** [float(s)]. *)
Definition float_ (s : string) : Py float :=
  match PyFloat.float_of_string s with
  | Some x => ret x
  | None => raise ValueError
  end.

(** [l[i]]. *)
Definition index (l : list string) (i : nat) : Py string :=
  match nth_error l i with
  | Some s => ret s
  | None => raise IndexError
  end.

(** [try: c except ValueError: h]. *)
Definition try_except_ValueError {A} (c : Py A) (h : Py A) : Py A :=
  fun out =>
    match c out with
    | (Raise ValueError, out') => h out'
    | r => r
    end.

Definition usage_message : string :=
  "Usage: python sum_numbers.py <number1> <number2>".

Definition error_message : string :=
  "Error: Both arguments must be numbers.".

(** *** [main], with [sys.argv] as its argument *)

Definition main (argv : list string) : Py unit :=
  (if negb (Nat.eqb (List.length argv) 3) then
     print usage_message ;;
     sys_exit 1
   else ret tt) ;;
  nums <- try_except_ValueError
            (a1 <- index argv 1 ;;
             num1 <- float_ a1 ;;
             a2 <- index argv 2 ;;
             num2 <- float_ a2 ;;
             ret (num1, num2))
            (print error_message ;;
             sys_exit 1) ;;
  let result := add (fst nums) (snd nums) in
  print_float result.

(** *** The process: what it wrote and its exit status *)

Record outcome := Outcome { stdout : string; status : Z }.

(** A normal return exits with 0, [sys.exit(n)] with [n], and any other
    exception that escapes with 1. *)
Definition exit_status (r : result unit) : Z :=
  match r with
  | Return _ => 0
  | Raise (SystemExit n) => n
  | Raise _ => 1
  end.

Definition run_from (out : string) (argv : list string) : outcome :=
  let '(r, out') := main argv out in Outcome out' (exit_status r).

Definition run (argv : list string) : outcome := run_from "" argv.

(** The runs of the script, one rule per path through [main]. *)
Inductive Run : list string -> outcome -> Prop :=
| Run_usage argv :
    List.length argv <> 3%nat ->
    Run argv (Outcome (usage_message ++ newline) 1)
| Run_error prog a b :
    PyFloat.float_of_string a = None \/ PyFloat.float_of_string b = None ->
    Run [prog; a; b] (Outcome (error_message ++ newline) 1)
| Run_sum prog a b x y :
    PyFloat.float_of_string a = Some x ->
    PyFloat.float_of_string b = Some y ->
    Run [prog; a; b] (Outcome (PyRepr.repr (add x y) ++ newline) 0).

(** The reading of the usage line in which [<program>] is the name the
    script was invoked under. *)
Definition usage_for (prog : string) : string :=
  "Usage: " ++ prog ++ " <number1> <number2>".

(** A line holds no line feed. *)
Definition one_line (line : string) : Prop :=
  ~ In (ascii_of_nat 10) (list_ascii_of_string line).

(** [line] is the sum of the two operands of [argv], as [print] shows
    it. *)
Definition numeric_result (argv : list string) (line : string) : Prop :=
  exists prog a b x y,
    argv = [prog; a; b] /\
    PyFloat.float_of_string a = Some x /\
    PyFloat.float_of_string b = Some y /\
    line = PyRepr.repr (add x y).

(** The digit loop of [repr] came to its end on [x]. *)
Definition repr_defined (x : float) : Prop :=
  match x with
  | S754_finite _ m e => PyRepr.dtoa m e <> None
  | _ => True
  end.

(** The operand syntax in the words of the specification: optional sign,
    digits, optional decimal point, optional exponent. *)
Definition lexical_float (s : string) : bool :=
  match PyFloat.lex_numeral (list_ascii_of_string s) with
  | Some _ => true
  | None => false
  end.

End Script.

(** ** Operands *)

Module Operands.

(** A string of blanks: every character is one that [float] strips. *)
Definition blank (s : string) : bool :=
  forallb PyFloat.Py_ISSPACE (list_ascii_of_string s).

(** [str(n)] for a non-negative [int] [n]. *)
Definition decimal (n : Z) : string :=
  string_of_list_ascii (PyRepr.render_digits (PyRepr.digits_of n)).

(** The binary64 that is exactly the integer [k], for [0 <= k < 2^53]. *)
Definition of_int (k : Z) : B64.float :=
  match k with
  | Zpos p =>
      let l := Z.log2 k in
      match k * 2 ^ (52 - l) with
      | Zpos q => S754_finite false q (l - 52)
      | _ => S754_zero false
      end
  | _ => S754_zero false
  end.

End Operands.

(** * Properties *)

(** ** The paths through [main] *)

Section Paths.

Import Script.
Local Open Scope string_scope.

Lemma run_from_usage (out : string) (argv : list string) :
  List.length argv <> 3%nat ->
  run_from out argv = Outcome (out ++ usage_message ++ newline) 1.
Proof.
  intros Hlen. unfold run_from, main, bind.
  destruct (Nat.eqb (List.length argv) 3) eqn:E.
  - apply Nat.eqb_eq in E. contradiction.
  - reflexivity.
Qed.

Lemma run_from_operands (out prog a b : string) :
  run_from out [prog; a; b] =
  match PyFloat.float_of_string a, PyFloat.float_of_string b with
  | Some x, Some y => Outcome (out ++ PyRepr.repr (B64.add x y) ++ newline) 0
  | _, _ => Outcome (out ++ error_message ++ newline) 1
  end.
Proof.
  unfold run_from, main, bind, try_except_ValueError, index, float_. simpl.
  destruct (PyFloat.float_of_string a) as [x|]; simpl.
  - destruct (PyFloat.float_of_string b) as [y|]; reflexivity.
  - reflexivity.
Qed.

Lemma length_3_inv {A} (l : list A) :
  List.length l = 3%nat -> exists x y z, l = [x; y; z].
Proof.
  destruct l as [|x [|y [|z [|w l]]]]; simpl; intros H; try discriminate.
  now exists x, y, z.
Qed.

(** The relation [Run] and the function [run] describe the same runs. *)
Lemma Run_run (argv : list string) (o : outcome) :
  Run argv o <-> run argv = o.
Proof.
  unfold run. split.
  - intros H. destruct H as [argv Hlen | prog a b Hnone | prog a b x y Ha Hb].
    + now rewrite run_from_usage.
    + rewrite run_from_operands.
      destruct Hnone as [-> | ->]; [reflexivity|].
      now destruct (PyFloat.float_of_string a).
    + rewrite run_from_operands, Ha, Hb. reflexivity.
  - intros <-.
    destruct (Nat.eq_dec (List.length argv) 3) as [Hlen | Hlen].
    + destruct (length_3_inv argv Hlen) as (prog & a & b & ->).
      rewrite run_from_operands.
      destruct (PyFloat.float_of_string a) as [x|] eqn:Ha.
      * destruct (PyFloat.float_of_string b) as [y|] eqn:Hb.
        -- now apply Run_sum.
        -- apply Run_error. now right.
      * apply Run_error. now left.
    + rewrite run_from_usage by assumption. now apply Run_usage.
Qed.

End Paths.

(** ** Binary64: canonical significands and addition *)

Section Binary64.

Import B64.

Lemma digits2_pos_log2 (m : positive) :
  Zpos (digits2_pos m) = Z.log2 (Zpos m) + 1.
Proof.
  induction m as [m IH | m IH |]; simpl digits2_pos.
  - rewrite Pos2Z.inj_succ, IH. simpl Z.log2.
    destruct m; simpl; lia.
  - rewrite Pos2Z.inj_succ, IH. simpl Z.log2.
    destruct m; simpl; lia.
  - reflexivity.
Qed.

Lemma Zdigits2_log2 (m : Z) : 0 < m -> Zdigits2 m = Z.log2 m + 1.
Proof.
  destruct m as [|p|p]; try lia. intros _. apply digits2_pos_log2.
Qed.

Lemma fexp_eq (z : Z) : fexp prec emax z = Z.max (z - 53) (-1074).
Proof. reflexivity. Qed.

(** A significand is canonical when it has 53 bits, or fewer at the
    smallest exponent. *)
Lemma canonical_iff (m : positive) (e : Z) :
  canonical_mantissa prec emax m e = true <->
  (2 ^ 52 <= Zpos m < 2 ^ 53 /\ -1074 <= e) \/
  (Zpos m < 2 ^ 52 /\ e = -1074).
Proof.
  unfold canonical_mantissa. rewrite Z.eqb_eq, fexp_eq, digits2_pos_log2.
  pose proof (Z.log2_spec (Zpos m) ltac:(lia)) as [Hlo Hhi].
  pose proof (Z.log2_nonneg (Zpos m)) as Hnn.
  split.
  - intros H.
    destruct (Z.le_gt_cases 52 (Z.log2 (Zpos m))) as [Hge | Hlt].
    + assert (Z.log2 (Zpos m) = 52) as E by lia.
      rewrite E in *. left. change (52 + 1) with 53 in Hhi. lia.
    + right. split; [|lia].
      eapply Z.lt_le_trans; [exact Hhi|].
      apply Z.pow_le_mono_r; lia.
  - intros [[[H1 H2] H3] | [H1 ->]].
    + assert (Z.log2 (Zpos m) = 52) as ->.
      { apply Z.log2_unique; [lia|]. change (52 + 1) with 53. lia. }
      lia.
    + assert (Z.log2 (Zpos m) < 52).
      { apply Z.log2_lt_pow2; lia. }
      lia.
Qed.

Lemma bounded_iff (m : positive) (e : Z) :
  bounded prec emax m e = true <->
  ((2 ^ 52 <= Zpos m < 2 ^ 53 /\ -1074 <= e) \/
   (Zpos m < 2 ^ 52 /\ e = -1074)) /\ e <= 971.
Proof.
  unfold bounded. rewrite andb_true_iff, canonical_iff, Z.leb_le.
  reflexivity.
Qed.

Lemma shr_m_shr_1 (mrs : shr_record) :
  0 <= shr_m mrs -> shr_m (shr_1 mrs) = shr_m mrs / 2.
Proof.
  destruct mrs as [m r s]. simpl. intros Hm.
  destruct m as [|[p|p|]|p]; simpl shr_m.
  - reflexivity.
  - rewrite (Pos2Z.inj_xI p). apply Z.div_unique with 1; lia.
  - rewrite (Pos2Z.inj_xO p). apply Z.div_unique with 0; lia.
  - reflexivity.
  - lia.
Qed.

Lemma pow2_xI (p : positive) : 2 ^ Zpos p~1 = 2 * 2 ^ Zpos p * 2 ^ Zpos p.
Proof.
  rewrite (Pos2Z.inj_xI p).
  replace (2 * Zpos p + 1) with (1 + Zpos p + Zpos p) by lia.
  rewrite Z.pow_add_r by lia. rewrite Z.pow_add_r by lia. reflexivity.
Qed.

Lemma pow2_xO (p : positive) : 2 ^ Zpos p~0 = 2 ^ Zpos p * 2 ^ Zpos p.
Proof.
  rewrite (Pos2Z.inj_xO p).
  replace (2 * Zpos p) with (Zpos p + Zpos p) by lia.
  rewrite Z.pow_add_r by lia. reflexivity.
Qed.

Lemma shr_m_iter_pos (p : positive) :
  forall mrs, 0 <= shr_m mrs ->
  shr_m (iter_pos shr_1 p mrs) = shr_m mrs / 2 ^ Zpos p.
Proof.
  induction p as [p IH | p IH |]; intros mrs Hm; simpl iter_pos.
  - assert (0 < 2 ^ Zpos p) as Hp by (apply Z.pow_pos_nonneg; lia).
    assert (0 <= shr_m (shr_1 mrs)) as H1.
    { rewrite shr_m_shr_1 by assumption. apply Z.div_pos; lia. }
    assert (0 <= shr_m (iter_pos shr_1 p (shr_1 mrs))) as H2.
    { rewrite IH by assumption. apply Z.div_pos; assumption. }
    rewrite IH, IH, shr_m_shr_1 by assumption.
    rewrite pow2_xI. rewrite Z.div_div by lia. rewrite Z.div_div by lia. f_equal. ring.
  - assert (0 < 2 ^ Zpos p) as Hp by (apply Z.pow_pos_nonneg; lia).
    assert (0 <= shr_m (iter_pos shr_1 p mrs)) as H2.
    { rewrite IH by assumption. apply Z.div_pos; assumption. }
    rewrite IH, IH by assumption.
    rewrite pow2_xO. rewrite Z.div_div by lia. reflexivity.
  - rewrite shr_m_shr_1 by assumption. reflexivity.
Qed.

Lemma shr_m_of_loc (m : Z) (l : location) :
  shr_m (shr_record_of_loc m l) = m.
Proof. destruct l as [|[]]; reflexivity. Qed.

(** Shifting right by [n >= 0] divides the significand by [2^n] and adds
    [n] to the exponent. *)
Lemma shr_spec (m e n : Z) (l : location) :
  0 <= m -> 0 <= n ->
  shr_m (fst (shr (shr_record_of_loc m l) e n)) = m / 2 ^ n /\
  snd (shr (shr_record_of_loc m l) e n) = e + n.
Proof.
  intros Hm Hn. destruct n as [|p|p]; try lia; simpl.
  - rewrite shr_m_of_loc, Z.div_1_r. lia.
  - rewrite shr_m_iter_pos by (rewrite shr_m_of_loc; assumption).
    rewrite shr_m_of_loc. auto.
Qed.

Lemma round_nearest_even_cases (m : Z) (l : location) :
  round_nearest_even m l = m \/ round_nearest_even m l = m + 1.
Proof.
  destruct l as [|[]]; simpl; auto. destruct (Z.even m); auto.
Qed.

Lemma shr_nonpos (mrs : shr_record) (e n : Z) :
  n <= 0 -> shr mrs e n = (mrs, e).
Proof. destruct n; try reflexivity. lia. Qed.

(** Rounding a significand that is not below its canonical exponent gives
    a canonical float, a zero or an infinity. *)
Lemma binary_round_aux_valid (sx : bool) (mx ex : Z) (lx : location) :
  0 < mx -> ex <= fexp prec emax (Zdigits2 mx + ex) ->
  valid (binary_round_aux prec emax sx mx ex lx) = true /\
  is_nan (binary_round_aux prec emax sx mx ex lx) = false.
Proof.
  intros Hmx Hex. unfold binary_round_aux, shr_fexp.
  rewrite Zdigits2_log2 in * by assumption.
  rewrite fexp_eq in *.
  set (d := Z.log2 mx + 1) in *.
  set (fe := Z.max (d + ex - 53) (-1074)) in *.
  pose proof (Z.log2_spec mx Hmx) as [Hlo Hhi]. fold d in Hhi.
  pose proof (Z.log2_nonneg mx) as Hd.
  destruct (shr_spec mx ex (fe - ex) lx ltac:(lia) ltac:(lia)) as [Hm' He'].
  destruct (shr (shr_record_of_loc mx lx) ex (fe - ex)) as [mrs' e'].
  simpl in Hm', He'. replace (ex + (fe - ex)) with fe in He' by lia.
  subst e'.
  assert (0 < 2 ^ (fe - ex)) as Hpn by (apply Z.pow_pos_nonneg; lia).
  assert (0 <= shr_m mrs') as Hm0 by (rewrite Hm'; apply Z.div_pos; lia).
  set (m1 := round_nearest_even (shr_m mrs') (loc_of_shr_record mrs')).
  assert (m1 = shr_m mrs' \/ m1 = shr_m mrs' + 1) as Hm1
    by apply round_nearest_even_cases.
  assert ((2 ^ 52 <= shr_m mrs' < 2 ^ 53 /\ fe = d + ex - 53) \/
          (shr_m mrs' < 2 ^ 52 /\ fe = -1074)) as Hrange.
  { destruct (Z.le_gt_cases (-1074) (d + ex - 53)) as [Hn | Hs].
    - left. assert (fe = d + ex - 53) as Hfe by lia. split; [|exact Hfe].
      replace (fe - ex) with (d - 53) in * by lia.
      rewrite Hm'. split.
      + apply Z.div_le_lower_bound; [lia|].
        rewrite <- Z.pow_add_r by lia.
        replace (d - 53 + 52) with (Z.log2 mx) by lia. exact Hlo.
      + apply Z.div_lt_upper_bound; [lia|].
        rewrite <- Z.pow_add_r by lia.
        replace (d - 53 + 53) with d by lia. exact Hhi.
    - right. assert (fe = -1074) as Hfe by lia. split; [|exact Hfe].
      rewrite Hm'. apply Z.div_lt_upper_bound; [lia|].
      rewrite <- Z.pow_add_r by lia.
      eapply Z.lt_le_trans; [exact Hhi|].
      apply Z.pow_le_mono_r; lia. }
  destruct (Z.eq_dec m1 0) as [Hz | Hnz].
  { rewrite Hz. simpl Zdigits2. rewrite shr_nonpos by (rewrite fexp_eq; lia).
    simpl. auto. }
  assert (0 < m1) as Hm1pos by lia.
  rewrite Zdigits2_log2 by assumption. rewrite fexp_eq.
  destruct (Z.eq_dec m1 (2 ^ 53)) as [Htop | Hntop].
  - (* the significand overflowed into a 54th bit *)
    assert (fe = d + ex - 53) as Hfe by lia.
    rewrite Htop. change (Z.log2 (2 ^ 53)) with 53.
    replace (Z.max (53 + 1 + fe - 53) (-1074) - fe) with 1 by lia.
    cbn [shr shr_1 iter_pos shr_record_of_loc shr_m fst snd].
    change (Z.pos 9007199254740992) with (Zpos (4503599627370496~0)).
    cbn [shr shr_1 iter_pos shr_record_of_loc shr_m fst snd].
    destruct (fe + 1 <=? emax - prec) eqn:Hov; [|simpl; auto].
    split; [|reflexivity]. apply bounded_iff. apply Z.leb_le in Hov.
    change (emax - prec) with 971 in Hov.
    change (Z.pos 4503599627370496) with (2 ^ 52). lia.
  - assert (Z.log2 m1 <= 52) as Hl52.
    { apply Z.lt_succ_r. apply Z.log2_lt_pow2; [lia|].
      change (Z.succ 52) with 53. lia. }
    destruct Hrange as [[Hr Hfe] | [Hr Hfe]].
    + assert (Z.log2 m1 = 52) as Hl.
      { apply Z.log2_unique; [lia|]. change (52 + 1) with 53. lia. }
      rewrite Hl. rewrite shr_nonpos by lia. simpl shr_m.
      destruct m1 as [|p|p]; try lia.
      destruct (fe <=? emax - prec) eqn:Hov; [|simpl; auto].
      split; [|reflexivity]. apply bounded_iff. apply Z.leb_le in Hov.
      change (emax - prec) with 971 in Hov. lia.
    + rewrite shr_nonpos by lia. simpl shr_m.
      destruct m1 as [|p|p]; try lia.
      rewrite Hfe. simpl. split; [|reflexivity]. apply bounded_iff.
      destruct (Z.eq_dec (Zpos p) (2 ^ 52)); lia.
Qed.

Lemma iter_xO_pow2 (d m : positive) :
  Zpos (Pos.iter xO m d) = Zpos m * 2 ^ Zpos d.
Proof.
  induction d as [|d IH] using Pos.peano_ind.
  - simpl. rewrite (Pos2Z.inj_xO m). change (2 ^ 1) with 2. lia.
  - rewrite Pos.iter_succ, (Pos2Z.inj_xO (Pos.iter xO m d)), IH.
    rewrite Pos2Z.inj_succ, Z.pow_succ_r by lia. ring.
Qed.

Lemma binary_round_valid (sx : bool) (mx : positive) (ex : Z) :
  valid (binary_round prec emax sx mx ex) = true /\
  is_nan (binary_round prec emax sx mx ex) = false.
Proof.
  unfold binary_round, shl_align.
  destruct (fexp prec emax (Zpos (digits2_pos mx) + ex) - ex) as [|p|p] eqn:E.
  - apply binary_round_aux_valid; [lia|]. simpl Zdigits2. lia.
  - apply binary_round_aux_valid; [lia|]. simpl Zdigits2. lia.
  - apply binary_round_aux_valid; [lia|].
    simpl Zdigits2. rewrite !digits2_pos_log2 in *.
    rewrite iter_xO_pow2, Z.log2_mul_pow2 by lia.
    unfold fexp, emin, prec, emax in *. lia.
Qed.

(** Addition keeps floats valid. *)
Lemma add_valid (x y : float) :
  valid x = true -> valid y = true -> valid (add x y) = true.
Proof.
  intros Hx Hy.
  destruct x as [sx|sx| |sx mx ex], y as [sy|sy| |sy my ey];
    try reflexivity; try assumption;
    try (destruct sx, sy; reflexivity).
  unfold add, SFadd, binary_normalize.
  match goal with
  | |- context [match ?z with Z0 => _ | Zpos _ => _ | Zneg _ => _ end] =>
      destruct z
  end; [reflexivity | apply binary_round_valid | apply binary_round_valid].
Qed.

(** The sum of two finite floats is a number: finite or, on overflow,
    infinite. *)
Lemma add_finite_not_nan (x y : float) :
  is_finite x = true -> is_finite y = true -> is_nan (add x y) = false.
Proof.
  intros Hx Hy.
  destruct x as [sx|sx| |sx mx ex], y as [sy|sy| |sy my ey];
    try discriminate; try reflexivity;
    try (destruct sx, sy; reflexivity).
  unfold add, SFadd, binary_normalize.
  match goal with
  | |- context [match ?z with Z0 => _ | Zpos _ => _ | Zneg _ => _ end] =>
      destruct z
  end; [reflexivity | apply binary_round_valid | apply binary_round_valid].
Qed.

(** Addition is commutative, signs of zeros and NaN included. *)
Lemma add_comm (x y : float) : add x y = add y x.
Proof.
  destruct x as [sx|sx| |sx mx ex], y as [sy|sy| |sy my ey];
    try reflexivity; try (destruct sx, sy; reflexivity).
  unfold add, SFadd. rewrite (Z.min_comm ey ex). f_equal. apply Z.add_comm.
Qed.

End Binary64.

(** ** Correct rounding: [round_ratio] *)

Section Rounding.

Import B64 PyFloat.

Lemma pow2_pos (z : Z) : 0 <= z -> 0 < 2 ^ z.
Proof. intros. apply Z.pow_pos_nonneg; lia. Qed.

Lemma ilog2_ratio_spec (N d : Z) :
  0 < N -> 0 < d ->
  (0 <= ilog2_ratio N d -> d * 2 ^ ilog2_ratio N d <= N) /\
  N < d * 2 ^ Z.max (ilog2_ratio N d + 1) 0.
Proof.
  intros HN Hd. unfold ilog2_ratio.
  destruct (Z.log2_spec N HN) as [HN1 HN2].
  destruct (Z.log2_spec d Hd) as [Hd1 Hd2].
  pose proof (Z.log2_nonneg N) as HlN.
  pose proof (Z.log2_nonneg d) as Hld.
  set (lN := Z.log2 N) in *. set (ld := Z.log2 d) in *.
  set (l := lN - ld).
  pose proof (pow2_pos ld Hld) as Hpd.
  destruct (Z.ltb_spec N (d * 2 ^ l)) as [Hlt | Hge].
  - assert (0 <= l) as Hl.
    { destruct (Z.le_gt_cases 0 l) as [|Hneg]; [assumption|].
      rewrite (Z.pow_neg_r 2 l Hneg) in Hlt. lia. }
    split.
    + intros Hl1.
      assert (2 ^ lN = 2 ^ Z.succ ld * 2 ^ (l - 1)) as E.
      { rewrite <- Z.pow_add_r by lia. f_equal. lia. }
      pose proof (pow2_pos (l - 1) Hl1). nia.
    + replace (Z.max (l - 1 + 1) 0) with l by lia. exact Hlt.
  - split.
    + intros _. exact Hge.
    + destruct (Z.le_gt_cases 0 (l + 1)) as [Hl1 | Hl1].
      * replace (Z.max (l + 1) 0) with (l + 1) by lia.
        assert (2 ^ Z.succ lN = 2 ^ ld * 2 ^ (l + 1)) as E.
        { rewrite <- Z.pow_add_r by lia. f_equal. lia. }
        pose proof (pow2_pos (l + 1) Hl1). nia.
      * replace (Z.max (l + 1) 0) with 0 by lia.
        assert (2 ^ Z.succ lN <= 2 ^ ld) by (apply Z.pow_le_mono_r; lia).
        change (2 ^ 0) with 1. lia.
Qed.

Lemma ilog2_ratio_unique (N d a : Z) :
  0 < N -> 0 < d -> 0 <= a ->
  d * 2 ^ a <= N -> N < d * 2 ^ (a + 1) ->
  ilog2_ratio N d = a.
Proof.
  intros HN Hd Ha Hlo Hhi.
  destruct (ilog2_ratio_spec N d HN Hd) as [H1 H2].
  set (p := ilog2_ratio N d) in *.
  destruct (Z.lt_trichotomy p a) as [Hlt | [Heq | Hgt]]; [|assumption|].
  - assert (2 ^ Z.max (p + 1) 0 <= 2 ^ a) by (apply Z.pow_le_mono_r; lia).
    nia.
  - assert (2 ^ (a + 1) <= 2 ^ p) by (apply Z.pow_le_mono_r; lia).
    specialize (H1 ltac:(lia)). nia.
Qed.

Lemma round_quotient_cases (N den : Z) :
  round_quotient N den = N / den \/ round_quotient N den = N / den + 1.
Proof.
  unfold round_quotient. destruct (2 * (N mod den) ?= den); auto.
  destruct (Z.even (N / den)); auto.
Qed.

(** A value between the midpoints around [mm] rounds to [mm]. *)
Lemma round_quotient_nearest (N den mm : Z) :
  0 < den ->
  PyRepr.bound (Z.even mm) ((2 * mm - 1) * den) (2 * N) ->
  PyRepr.bound (Z.even mm) (2 * N) ((2 * mm + 1) * den) ->
  round_quotient N den = mm.
Proof.
  intros Hden Hlo Hhi. unfold round_quotient.
  pose proof (Z.div_mod N den ltac:(lia)) as HN.
  pose proof (Z.mod_pos_bound N den Hden) as Hr.
  set (q := N / den) in *. set (r := N mod den) in *.
  assert ((2 * mm - 1) * den <= 2 * N <= (2 * mm + 1) * den) as Hweak.
  { unfold PyRepr.bound in *. destruct (Z.even mm); lia. }
  assert (q = mm - 1 \/ q = mm) as Hq by nia.
  destruct (Z.compare_spec (2 * r) den) as [Heq | Hlt | Hgt].
  - destruct Hq as [Hq | Hq].
    + assert (Z.even mm = true) as Hev.
      { destruct (Z.even mm) eqn:E; [reflexivity|].
        unfold PyRepr.bound in Hlo. nia. }
      assert (Z.even q = false) as ->.
      { rewrite Hq, Z.even_sub, Hev. reflexivity. }
      lia.
    + assert (Z.even mm = true) as Hev.
      { destruct (Z.even mm) eqn:E; [reflexivity|].
        unfold PyRepr.bound in Hhi. nia. }
      rewrite Hq, Hev. reflexivity.
  - destruct Hq as [Hq | Hq]; [nia | assumption].
  - destruct Hq as [Hq | Hq]; [lia | nia].
Qed.

(** The exponent chosen by [round_ratio]. *)
Lemma exponent_choice (N d t : Z) :
  0 < N -> 0 < d -> 0 <= t ->
  (0 < t -> d * 2 ^ (t + 52) <= N) ->
  N < d * 2 ^ (t + 53) ->
  Z.max (ilog2_ratio N d - 52) 0 = t.
Proof.
  intros HN Hd Ht Hlo Hhi.
  destruct (Z.eq_dec t 0) as [-> | Hnz].
  - destruct (ilog2_ratio_spec N d HN Hd) as [H1 _].
    destruct (Z.le_gt_cases (ilog2_ratio N d) 52) as [|Hbig]; [lia|].
    specialize (H1 ltac:(lia)).
    assert (2 ^ (0 + 53) <= 2 ^ ilog2_ratio N d)
      by (apply Z.pow_le_mono_r; lia).
    nia.
  - assert (ilog2_ratio N d = t + 52) as ->; [|lia].
    apply ilog2_ratio_unique; try lia.
    replace (t + 52 + 1) with (t + 53) by lia. exact Hhi.
Qed.

Lemma round_ratio_unfold (s : bool) (n d t : Z) :
  Z.max (ilog2_ratio (n * 2 ^ 1074) d - 52) 0 = t ->
  round_ratio s n d =
  let q := round_quotient (n * 2 ^ 1074) (d * 2 ^ t) in
  let '(m, t') := if q =? 2 ^ 53 then (2 ^ 52, t + 1) else (q, t) in
  match m with
  | Zpos p =>
      if t' - 1074 <=? emax - prec then S754_finite s p (t' - 1074)
      else S754_infinity s
  | _ => S754_zero s
  end.
Proof. intros <-. reflexivity. Qed.

(** [round_ratio] always gives a valid float. *)
Lemma round_ratio_valid (s : bool) (n d : Z) :
  0 < n -> 0 < d -> valid (round_ratio s n d) = true.
Proof.
  intros Hn Hd.
  rewrite (round_ratio_unfold s n d _ eq_refl).
  assert (0 < 2 ^ 1074) as HK by (apply pow2_pos; lia).
  set (K := 2 ^ 1074) in *.
  assert (0 < n * K) as HN by nia.
  set (N := n * K) in *.
  destruct (ilog2_ratio_spec N d HN Hd) as [H1 H2].
  set (p := ilog2_ratio N d) in *.
  set (t := Z.max (p - 52) 0).
  assert (0 <= t) as Ht by lia.
  pose proof (pow2_pos t Ht) as Hpt.
  assert (0 < d * 2 ^ t) as Hden by nia.
  assert (N / (d * 2 ^ t) < 2 ^ 53) as Hq1.
  { apply Z.div_lt_upper_bound; [assumption|].
    assert (2 ^ Z.max (p + 1) 0 <= 2 ^ (t + 53))
      by (apply Z.pow_le_mono_r; lia).
    rewrite Z.pow_add_r in * by lia. nia. }
  assert (0 < t -> 2 ^ 52 <= N / (d * 2 ^ t)) as Hq2.
  { intros Hpos. apply Z.div_le_lower_bound; [assumption|].
    specialize (H1 ltac:(lia)).
    replace p with (t + 52) in H1 by lia.
    rewrite Z.pow_add_r in H1 by lia. nia. }
  assert (0 <= N / (d * 2 ^ t)) as Hq0 by (apply Z.div_pos; lia).
  destruct (round_quotient_cases N (d * 2 ^ t)) as [Hq | Hq];
    cbv zeta; rewrite Hq; clear Hq;
    set (q := N / (d * 2 ^ t)) in *.
  - assert ((q =? 2 ^ 53) = false) as -> by (apply Z.eqb_neq; lia).
    destruct q as [|q|q]; try reflexivity.
    destruct (t - 1074 <=? emax - prec) eqn:E; [|reflexivity].
    apply bounded_iff. apply Z.leb_le in E.
    change (emax - prec) with 971 in E.
    destruct (Z.eq_dec t 0); [|specialize (Hq2 ltac:(lia))]; lia.
  - destruct (Z.eqb_spec (q + 1) (2 ^ 53)) as [E | E].
    + change (2 ^ 52) with (Zpos 4503599627370496).
      cbv iota beta.
      destruct (t + 1 - 1074 <=? emax - prec) eqn:E'; [|reflexivity].
      apply bounded_iff. apply Z.leb_le in E'.
      change (emax - prec) with 971 in E'.
      change (Zpos 4503599627370496) with (2 ^ 52). lia.
    + destruct (q + 1) as [|q1|q1] eqn:Eq1; try reflexivity.
      destruct (t - 1074 <=? emax - prec) eqn:E'; [|reflexivity].
      apply bounded_iff. apply Z.leb_le in E'.
      change (emax - prec) with 971 in E'.
      destruct (Z.eq_dec t 0); [|specialize (Hq2 ltac:(lia))]; lia.
Qed.

Lemma bound_eq (c : bool) (a a' b b' : Z) :
  a = a' -> b = b' -> PyRepr.bound c a b -> PyRepr.bound c a' b'.
Proof. now intros -> ->. Qed.

Lemma bound_weaken (c : bool) (a b : Z) : PyRepr.bound c a b -> a <= b.
Proof. unfold PyRepr.bound. destruct c; lia. Qed.

(** A value between the midpoints around a float rounds to that float. *)
Lemma round_ratio_interval (s : bool) (m : positive) (e n d : Z) :
  bounded prec emax m e = true ->
  0 < n -> 0 < d ->
  PyRepr.in_interval (Z.even (Zpos m)) (PyRepr.initial m e) n d ->
  round_ratio s n d = S754_finite s m e.
Proof.
  intros Hb Hn Hd [Hlo Hhi].
  apply bounded_iff in Hb. destruct Hb as [Hcan He].
  unfold PyRepr.initial in Hlo, Hhi. cbv zeta in Hlo, Hhi.
  cbn [PyRepr.sc_b PyRepr.sc_S PyRepr.sc_mlo PyRepr.sc_mhi] in Hlo, Hhi.
  assert (0 < 2 ^ 1074) as HK by (apply pow2_pos; lia).
  set (K := 2 ^ 1074) in *.
  assert (exists t0, 0 <= t0 /\ e = t0 - 1074) as (t0 & Ht0 & ->)
    by (exists (e + 1074); lia).
  replace (t0 - 1074 + 1074) with t0 in * by lia.
  pose proof (pow2_pos t0 Ht0) as Hu.
  assert (0 < n * K) as HN by nia.
  destruct (PyRepr.boundary m (t0 - 1074)) eqn:Hbd.
  - (* the significand is 2^52 and the float below is closer *)
    unfold PyRepr.boundary in Hbd. apply andb_true_iff in Hbd.
    destruct Hbd as [Hm2 Hgt]. apply Z.eqb_eq in Hm2. apply Z.ltb_lt in Hgt.
    rewrite Hm2 in Hlo, Hhi. change (Z.even (2 ^ 52)) with true in Hlo, Hhi.
    unfold PyRepr.bound in Hlo, Hhi.
    destruct (Z.le_gt_cases (2 ^ 52 * 2 ^ t0 * d) (n * K)) as [Hup | Hdown].
    + assert (Z.max (ilog2_ratio (n * K) d - 52) 0 = t0) as Ht.
      { apply exponent_choice; try lia.
        - intros _. rewrite Z.pow_add_r by lia. lia.
        - rewrite Z.pow_add_r by lia. change (2 ^ 53) with (2 * 2 ^ 52).
          nia. }
      rewrite (round_ratio_unfold s n d t0 Ht). fold K.
      rewrite (round_quotient_nearest (n * K) (d * 2 ^ t0) (2 ^ 52));
        [| nia | unfold PyRepr.bound; simpl Z.even; cbv iota; nia
           | unfold PyRepr.bound; simpl Z.even; cbv iota; nia ].
      cbv zeta. change (2 ^ 52 =? 2 ^ 53) with false. cbv iota.
      change (2 ^ 52) with (Zpos 4503599627370496) in *.
      assert ((t0 - 1074 <=? emax - prec) = true) as ->
        by (apply Z.leb_le; change (emax - prec) with 971; lia).
      f_equal. congruence.
    + assert (0 <= t0 - 1) as Ht1 by lia.
      pose proof (pow2_pos (t0 - 1) Ht1) as Hu'.
      assert (2 ^ t0 = 2 * 2 ^ (t0 - 1)) as Eu.
      { replace t0 with (1 + (t0 - 1)) at 1 by lia.
        rewrite Z.pow_add_r by lia. reflexivity. }
      rewrite Eu in *.
      assert (Z.max (ilog2_ratio (n * K) d - 52) 0 = t0 - 1) as Ht.
      { apply exponent_choice; try lia.
        - intros _. rewrite Z.pow_add_r by lia. nia.
        - rewrite Z.pow_add_r by lia. change (2 ^ 53) with (2 * 2 ^ 52).
          nia. }
      rewrite (round_ratio_unfold s n d (t0 - 1) Ht). fold K.
      rewrite (round_quotient_nearest (n * K) (d * 2 ^ (t0 - 1)) (2 ^ 53));
        [| nia | unfold PyRepr.bound; simpl Z.even; cbv iota;
                 change (2 ^ 53) with (2 * 2 ^ 52); nia
           | unfold PyRepr.bound; simpl Z.even; cbv iota;
             change (2 ^ 53) with (2 * 2 ^ 52); nia ].
      cbv zeta. rewrite Z.eqb_refl.
      change (2 ^ 52) with (Zpos 4503599627370496) in *.
      cbv iota beta.
      replace (t0 - 1 + 1 - 1074) with (t0 - 1074) by lia.
      assert ((t0 - 1074 <=? emax - prec) = true) as ->
        by (apply Z.leb_le; change (emax - prec) with 971; lia).
      f_equal. congruence.
  - replace (2 * 1 * Zpos m * 2 ^ t0 - 2 ^ t0) with
      ((2 * Zpos m - 1) * 2 ^ t0) in Hlo by ring.
    replace (2 * 1 * Zpos m * 2 ^ t0 + 1 * 2 ^ t0) with
      ((2 * Zpos m + 1) * 2 ^ t0) in Hhi by ring.
    pose proof (bound_weaken _ _ _ Hlo) as Hlo'.
    pose proof (bound_weaken _ _ _ Hhi) as Hhi'.
    assert (0 < t0 -> 2 ^ 52 + 1 <= Zpos m) as Hnb.
    { intros Hpos. unfold PyRepr.boundary in Hbd.
      apply andb_false_iff in Hbd. destruct Hbd as [Hbd | Hbd].
      - apply Z.eqb_neq in Hbd. lia.
      - apply Z.ltb_ge in Hbd. lia. }
    assert (Zpos m < 2 ^ 53) as Hm53 by lia.
    assert (Z.max (ilog2_ratio (n * K) d - 52) 0 = t0) as Ht.
    { apply exponent_choice; try lia.
      - intros Hpos. specialize (Hnb Hpos).
        rewrite Z.pow_add_r by lia. nia.
      - rewrite Z.pow_add_r by lia. change (2 ^ 53) with (2 * 2 ^ 52) in *.
        nia. }
    rewrite (round_ratio_unfold s n d t0 Ht). fold K.
    rewrite (round_quotient_nearest (n * K) (d * 2 ^ t0) (Zpos m));
      [| nia
       | revert Hlo; apply bound_eq; ring
       | revert Hhi; apply bound_eq; ring ].
    cbv zeta.
    assert ((Zpos m =? 2 ^ 53) = false) as -> by (apply Z.eqb_neq; lia).
    assert ((t0 - 1074 <=? emax - prec) = true) as ->
      by (apply Z.leb_le; change (emax - prec) with 971; lia).
    reflexivity.
Qed.

End Rounding.

(** ** Powers with signed exponents *)

Section Powers.

Import PyRepr.

Variable b : Z.
Hypothesis Hb : 0 < b.

Lemma scale_pos (z : Z) : 0 < scale b z.
Proof. unfold scale. apply Z.pow_pos_nonneg; lia. Qed.

Lemma scale_nonneg (z : Z) : 0 <= z -> scale b z = b ^ z.
Proof. intros. unfold scale. f_equal. lia. Qed.

Lemma scale_neg (z : Z) : z <= 0 -> scale b z = 1.
Proof. intros. unfold scale. now replace (Z.max z 0) with 0 by lia. Qed.

Ltac scale_cases z :=
  destruct (Z.le_gt_cases 0 z);
  [ rewrite (scale_nonneg z), (scale_neg (- z)) by lia
  | rewrite (scale_neg z), (scale_nonneg (- z)) by lia ].

(** [b^(x+y) = b^x * b^y], cross-multiplied. *)
Lemma scale_add (x y : Z) :
  scale b (x + y) * (scale b (- x) * scale b (- y)) =
  scale b x * scale b y * scale b (- (x + y)).
Proof.
  scale_cases x; scale_cases y; scale_cases (x + y);
    rewrite <- ?Z.pow_add_r by lia;
    rewrite ?Z.mul_1_r, ?Z.mul_1_l;
    rewrite <- ?Z.pow_add_r by lia;
    try (f_equal; lia); try lia.
Qed.

Lemma is_pow_scale (z : Z) : is_pow b z (scale b z) (scale b (- z)).
Proof.
  unfold is_pow. pose proof (scale_pos z). pose proof (scale_pos (- z)).
  repeat split; try assumption. ring.
Qed.

Lemma is_pow_nonneg (z : Z) : 0 <= z -> is_pow b z (b ^ z) 1.
Proof.
  intros Hz. pose proof (is_pow_scale z) as H.
  now rewrite (scale_nonneg z), (scale_neg (- z)) in H by lia.
Qed.

Lemma is_pow_nonpos (z : Z) : 0 <= z -> is_pow b (- z) 1 (b ^ z).
Proof.
  intros Hz. pose proof (is_pow_scale (- z)) as H.
  rewrite (scale_neg (- z)), (scale_nonneg (- - z)) in H by lia.
  now rewrite Z.opp_involutive in H.
Qed.

Lemma is_pow_mul (x y n1 d1 n2 d2 : Z) :
  is_pow b x n1 d1 -> is_pow b y n2 d2 ->
  is_pow b (x + y) (n1 * n2) (d1 * d2).
Proof.
  intros (Hn1 & Hd1 & E1) (Hn2 & Hd2 & E2).
  repeat split; try nia.
  pose proof (scale_add x y) as A.
  pose proof (scale_pos x). pose proof (scale_pos y).
  pose proof (scale_pos (- x)). pose proof (scale_pos (- y)).
  pose proof (scale_pos (x + y)). pose proof (scale_pos (- (x + y))).
  apply (Z.mul_reg_r _ _ (scale b x * scale b y)); [nia|].
  transitivity (n1 * scale b (- x) * (n2 * scale b (- y)) * scale b (x + y)).
  - rewrite <- !Z.mul_assoc.
    replace (scale b (- (x + y)) * (scale b x * scale b y))
      with (scale b x * scale b y * scale b (- (x + y))) by ring.
    rewrite <- A. ring.
  - rewrite E1, E2. ring.
Qed.

Lemma is_pow_unique (z n1 d1 n2 d2 : Z) :
  is_pow b z n1 d1 -> is_pow b z n2 d2 -> n1 * d2 = n2 * d1.
Proof.
  intros (Hn1 & Hd1 & E1) (Hn2 & Hd2 & E2).
  pose proof (scale_pos z). pose proof (scale_pos (- z)).
  apply (Z.mul_reg_r _ _ (scale b z)); [lia|].
  transitivity (n1 * (d2 * scale b z)); [ring|].
  rewrite <- E2.
  transitivity (n2 * (n1 * scale b (- z))); [ring|].
  rewrite E1. ring.
Qed.

Lemma is_pow_eq (z z' n d : Z) : z = z' -> is_pow b z n d -> is_pow b z' n d.
Proof. now intros ->. Qed.

End Powers.

(** ** The rounding interval under a change of scale *)

Section Intervals.

Import PyRepr.

Lemma bound_scale (c : bool) (a a' b b' k : Z) :
  0 < k -> a' = a * k -> b' = b * k -> bound c a b -> bound c a' b'.
Proof.
  intros Hk -> ->. unfold bound. destruct c; nia.
Qed.

Lemma bound_unscale (c : bool) (a a' b b' k : Z) :
  0 < k -> a' = a * k -> b' = b * k -> bound c a' b' -> bound c a b.
Proof.
  intros Hk -> ->. unfold bound. destruct c; nia.
Qed.

(** The same ratio, written with other numerator and denominator. *)
Lemma in_interval_ratio (c : bool) (x : scaled) (n d n' d' : Z) :
  0 < d -> 0 < d' -> n * d' = n' * d ->
  in_interval c x n d -> in_interval c x n' d'.
Proof.
  intros Hd Hd' E [Hlo Hhi]. split.
  - apply (bound_unscale c _ ((sc_b x - sc_mlo x) * d * d') _
             (sc_S x * n * d') d Hd); [ring | |].
    + rewrite <- !Z.mul_assoc. rewrite E. ring.
    + revert Hlo. apply bound_scale with (k := d'); [assumption | ring | ring].
  - apply (bound_unscale c _ (sc_S x * n * d') _
             ((sc_b x + sc_mhi x) * d * d') d Hd); [ | ring |].
    + rewrite <- !Z.mul_assoc. rewrite E. ring.
    + revert Hhi. apply bound_scale with (k := d'); [assumption | ring | ring].
Qed.

(** Scaling [b], [mlo], [mhi] by [c1] and [S] by [c2] multiplies the
    ratio by [c1 / c2]. *)
Lemma in_interval_rescale (c : bool) (b S mlo mhi c1 c2 n d : Z) :
  0 < c1 -> 0 < c2 ->
  in_interval c (Scaled (b * c1) (S * c2) (mlo * c1) (mhi * c1)) n d ->
  in_interval c (Scaled b S mlo mhi) (n * c2) (d * c1).
Proof.
  intros H1 H2 [Hlo Hhi]. cbn [sc_b sc_S sc_mlo sc_mhi] in *. split;
    cbn [sc_b sc_S sc_mlo sc_mhi].
  - revert Hlo. apply bound_eq; ring.
  - revert Hhi. apply bound_eq; ring.
Qed.

End Intervals.

(** ** Digit lists *)

Section Digits.

Lemma fold_digits (l : list Z) (a : Z) :
  fold_left (fun acc d => 10 * acc + d) l a =
  a * 10 ^ Z.of_nat (List.length l) + digits_value l.
Proof.
  unfold digits_value. revert a.
  induction l as [|d l IH]; intros a.
  - simpl. lia.
  - cbn [fold_left List.length]. rewrite IH, (IH (10 * 0 + d)).
    rewrite Nat2Z.inj_succ, Z.pow_succ_r by lia. ring.
Qed.

Lemma digits_value_cons (d : Z) (l : list Z) :
  digits_value (d :: l) = d * 10 ^ Z.of_nat (List.length l) + digits_value l.
Proof.
  unfold digits_value at 1. cbn [fold_left]. rewrite fold_digits. ring.
Qed.

Lemma digits_value_app (l1 l2 : list Z) :
  digits_value (l1 ++ l2) =
  digits_value l1 * 10 ^ Z.of_nat (List.length l2) + digits_value l2.
Proof.
  unfold digits_value at 1. rewrite fold_left_app, fold_digits.
  reflexivity.
Qed.

Lemma digits_value_snoc (l : list Z) (d : Z) :
  digits_value (l ++ [d]) = 10 * digits_value l + d.
Proof.
  rewrite digits_value_app. cbn [List.length]. change (10 ^ Z.of_nat 1) with 10.
  change (digits_value [d]) with (10 * 0 + d). lia.
Qed.

Lemma digits_value_nonneg (l : list Z) :
  Forall PyRepr.is_decimal_digit l -> 0 <= digits_value l.
Proof.
  induction l as [|d l IH] using rev_ind; intros H.
  - reflexivity.
  - apply Forall_app in H. destruct H as [Hl Hd].
    rewrite digits_value_snoc. specialize (IH Hl).
    inversion Hd as [|? ? Hd' _]. unfold PyRepr.is_decimal_digit in Hd'. lia.
Qed.

End Digits.

(** ** The digit loop of [dtoa] *)

Section DigitLoop.

Import PyRepr.

Lemma digit_loop_step (fuel : nat) (ev : bool) (b S mlo mhi : Z)
    (acc : list Z) :
  digit_loop (Datatypes.S fuel) ev b S mlo mhi acc =
  let dig := b / S in
  let b := b mod S in
  let j := b ?= mlo in
  let j1 := if S - mhi <? 0 then Gt else b ?= S - mhi in
  if is_Eq j1 && ev then
    if dig =? 9 then Some (9 :: acc, true)
    else Some ((if is_Gt j then dig + 1 else dig) :: acc, false)
  else if is_Lt j || (is_Eq j && ev) then
    if b =? 0 then Some (dig :: acc, false)
    else if is_Gt j1 then
      let j2 := 2 * b ?= S in
      if is_Gt j2 || (is_Eq j2 && Z.odd dig) then
        if dig =? 9 then Some (9 :: acc, true)
        else Some (dig + 1 :: acc, false)
      else Some (dig :: acc, false)
    else Some (dig :: acc, false)
  else if is_Gt j1 then
    if dig =? 9 then Some (9 :: acc, true)
    else Some (dig + 1 :: acc, false)
  else digit_loop fuel ev (10 * b) S (10 * mlo) (10 * mhi) (dig :: acc).
Proof. reflexivity. Qed.

Section OneDigit.

Variables (ev : bool) (b S mlo mhi : Z) (acc : list Z).
Hypothesis HS : 0 < S.
Hypothesis Hb : 0 <= b < 10 * S.
Hypothesis Hmlo : 0 < mlo.
Hypothesis Hmhi : 0 < mhi.

Lemma quotient_digit : 0 <= b / S <= 9.
Proof.
  split.
  - apply Z.div_pos; lia.
  - apply Z.lt_succ_r. apply Z.div_lt_upper_bound; lia.
Qed.

Lemma bound_refl_lt (c : bool) (x y : Z) : x < y -> bound c x y.
Proof. unfold bound. destruct c; lia. Qed.

Lemma bound_shift (c : bool) (x x' y y' k : Z) :
  x' = x + k -> y' = y + k -> bound c x y -> bound c x' y'.
Proof. intros -> ->. unfold bound. destruct c; lia. Qed.

(** Stopping at the digit [b / S]. *)
Lemma stop_down :
  bound ev (b mod S) mlo ->
  loop_result ev (Scaled b S mlo mhi) acc (b / S :: acc, false).
Proof.
  intros Hr. pose proof quotient_digit as Hq.
  pose proof (Z.div_mod b S ltac:(lia)) as E.
  pose proof (Z.mod_pos_bound b S HS) as Hm.
  exists [b / S]. cbn [fst snd rev app List.length].
  repeat split; try reflexivity; try discriminate.
  - constructor; [exact Hq | constructor].
  - cbn [sc_b sc_S sc_mlo sc_mhi]. change (10 ^ (Z.of_nat 1 - 1)) with 1.
    rewrite digits_value_cons. cbn [List.length].
    change (digits_value []) with 0. change (10 ^ Z.of_nat 0) with 1.
    revert Hr. unfold bound. destruct ev; nia.
  - cbn [sc_b sc_S sc_mlo sc_mhi]. change (10 ^ (Z.of_nat 1 - 1)) with 1.
    rewrite digits_value_cons. cbn [List.length].
    change (digits_value []) with 0. change (10 ^ Z.of_nat 0) with 1.
    apply bound_refl_lt. nia.
Qed.

(** Stopping at the digit above [b / S]. *)
Lemma stop_up :
  b / S <> 9 -> bound ev (S - b mod S) mhi ->
  loop_result ev (Scaled b S mlo mhi) acc (b / S + 1 :: acc, false).
Proof.
  intros Hn9 Hr. pose proof quotient_digit as Hq.
  pose proof (Z.div_mod b S ltac:(lia)) as E.
  pose proof (Z.mod_pos_bound b S HS) as Hm.
  exists [b / S + 1]. cbn [fst snd rev app List.length].
  repeat split; try reflexivity; try discriminate.
  - constructor; [unfold is_decimal_digit; lia | constructor].
  - cbn [sc_b sc_S sc_mlo sc_mhi]. change (10 ^ (Z.of_nat 1 - 1)) with 1.
    rewrite digits_value_cons. cbn [List.length].
    change (digits_value []) with 0. change (10 ^ Z.of_nat 0) with 1.
    apply bound_refl_lt. nia.
  - cbn [sc_b sc_S sc_mlo sc_mhi]. change (10 ^ (Z.of_nat 1 - 1)) with 1.
    rewrite digits_value_cons. cbn [List.length].
    change (digits_value []) with 0. change (10 ^ Z.of_nat 0) with 1.
    revert Hr. unfold bound. destruct ev; nia.
Qed.

(** Stopping at a nine that is to be rounded up. *)
Lemma stop_carry :
  b / S = 9 -> bound ev (S - b mod S) mhi ->
  loop_result ev (Scaled b S mlo mhi) acc (9 :: acc, true).
Proof.
  intros H9 Hr.
  pose proof (Z.div_mod b S ltac:(lia)) as E.
  pose proof (Z.mod_pos_bound b S HS) as Hm.
  exists [9]. cbn [fst snd rev app List.length].
  repeat split; try reflexivity; try discriminate.
  - constructor; [unfold is_decimal_digit; lia | constructor].
  - cbn [sc_b sc_S sc_mlo sc_mhi]. change (10 ^ (Z.of_nat 1 - 1)) with 1.
    change (digits_value [9]) with 9.
    apply bound_refl_lt. nia.
  - cbn [sc_b sc_S sc_mlo sc_mhi]. change (10 ^ (Z.of_nat 1 - 1)) with 1.
    change (digits_value [9]) with 9.
    revert Hr. unfold bound. destruct ev; nia.
Qed.

Lemma pow10_length (d0 : Z) (nd : list Z) :
  10 ^ Z.of_nat (List.length (d0 :: nd)) =
    10 * 10 ^ (Z.of_nat (List.length (d0 :: nd)) - 1) /\
  forall d1, 10 ^ (Z.of_nat (List.length (d1 :: d0 :: nd)) - 1) =
    10 * 10 ^ (Z.of_nat (List.length (d0 :: nd)) - 1).
Proof.
  cbn [List.length]. split; [|intros _].
  - rewrite <- Z.pow_succ_r by lia. f_equal. lia.
  - rewrite <- Z.pow_succ_r by lia. f_equal. lia.
Qed.

(** Going on: the digits found for the remainder follow [b / S]. *)
Lemma continue_with (r : list Z * bool) :
  loop_result ev
    (Scaled (10 * (b mod S)) S (10 * mlo) (10 * mhi)) (b / S :: acc) r ->
  loop_result ev (Scaled b S mlo mhi) acc r.
Proof.
  intros (nd & Hacc & Hne & Hdig & Hlo & Hhi).
  pose proof quotient_digit as Hq.
  pose proof (Z.div_mod b S ltac:(lia)) as E.
  exists (b / S :: nd). repeat split.
  - rewrite Hacc. cbn [rev]. now rewrite <- app_assoc.
  - discriminate.
  - constructor; assumption.
  - cbn [sc_b sc_S sc_mlo sc_mhi] in *.
    destruct nd as [|d0 nd]; [contradiction|].
    rewrite (digits_value_cons (b / S)).
    destruct (pow10_length d0 nd) as [E1 E2]. rewrite E1, E2.
    set (P := 10 ^ (Z.of_nat (List.length (d0 :: nd)) - 1)) in *.
    rewrite <- Z.add_assoc.
    set (V := digits_value (d0 :: nd) + (if snd r then 1 else 0)) in *.
    revert Hlo. apply bound_shift with (k := S * (b / S) * (10 * P)); [|ring].
    rewrite E at 1. ring.
  - cbn [sc_b sc_S sc_mlo sc_mhi] in *.
    destruct nd as [|d0 nd]; [contradiction|].
    rewrite (digits_value_cons (b / S)).
    destruct (pow10_length d0 nd) as [E1 E2]. rewrite E1, E2.
    set (P := 10 ^ (Z.of_nat (List.length (d0 :: nd)) - 1)) in *.
    rewrite <- Z.add_assoc.
    set (V := digits_value (d0 :: nd) + (if snd r then 1 else 0)) in *.
    revert Hhi. apply bound_shift with (k := S * (b / S) * (10 * P)); [ring|].
    rewrite E at 1. ring.
Qed.

End OneDigit.

End DigitLoop.

Section DigitLoopSpec.

Import PyRepr.

Lemma compare_bound_closed (x y : Z) : (x ?= y) <> Gt -> bound true x y.
Proof. intros H. unfold bound. destruct (Z.compare_spec x y); try lia. congruence. Qed.

(** Whenever the loop stops, its digits denote a value in the rounding
    interval. *)
Lemma digit_loop_spec (ev : bool) (fuel : nat) :
  forall b S mlo mhi acc r,
  0 < S -> 0 <= b < 10 * S -> 0 < mlo -> 0 < mhi ->
  digit_loop fuel ev b S mlo mhi acc = Some r ->
  loop_result ev (Scaled b S mlo mhi) acc r.
Proof.
  induction fuel as [|fuel IH]; intros b S mlo mhi acc r HS Hb Hmlo Hmhi Hrun.
  - discriminate.
  - rewrite digit_loop_step in Hrun. cbv zeta in Hrun.
    pose proof (Z.mod_pos_bound b S HS) as Hm.
    set (rm := b mod S) in *. set (dig := b / S) in *.
    assert (forall c, S - rm < mhi -> bound c (S - rm) mhi) as Hup
      by (intros c; apply bound_refl_lt).
    assert (forall c, rm < mlo -> bound c rm mlo) as Hdown
      by (intros c; apply bound_refl_lt).
    destruct (Z.ltb_spec (S - mhi) 0) as [Hbig | Hsmall].
    + (* the midpoint above is within one unit of the digit *)
      cbn [is_Eq is_Gt andb] in Hrun.
      destruct (Z.compare_spec rm mlo) as [Ej | Ej | Ej];
        cbn [is_Lt is_Eq is_Gt orb andb] in Hrun.
      * destruct ev; cbn [andb orb] in Hrun.
        -- destruct (Z.eqb_spec rm 0) as [E0 | E0]; [lia|].
           destruct (is_Gt (2 * rm ?= S) || is_Eq (2 * rm ?= S) && Z.odd dig).
           ++ destruct (Z.eqb_spec dig 9); inversion Hrun; subst r.
              ** apply stop_carry; auto. apply Hup. lia.
              ** apply stop_up; auto. apply Hup. lia.
           ++ inversion Hrun; subst r. apply stop_down; auto.
              unfold bound. fold rm. lia.
        -- destruct (Z.eqb_spec dig 9); inversion Hrun; subst r.
           ++ apply stop_carry; auto. apply Hup. lia.
           ++ apply stop_up; auto. apply Hup. lia.
      * destruct (Z.eqb_spec rm 0) as [E0 | E0].
        -- inversion Hrun; subst r. apply stop_down; auto.
        -- destruct (is_Gt (2 * rm ?= S) || is_Eq (2 * rm ?= S) && Z.odd dig).
           ++ destruct (Z.eqb_spec dig 9); inversion Hrun; subst r.
              ** apply stop_carry; auto. apply Hup. lia.
              ** apply stop_up; auto. apply Hup. lia.
           ++ inversion Hrun; subst r. apply stop_down; auto.
      * destruct (Z.eqb_spec dig 9); inversion Hrun; subst r.
        -- apply stop_carry; auto. apply Hup. lia.
        -- apply stop_up; auto. apply Hup. lia.
    + destruct (Z.compare_spec rm (S - mhi)) as [Ej1 | Ej1 | Ej1];
        cbn [is_Eq is_Gt andb] in Hrun.
      * (* the digit above is exactly the midpoint *)
        destruct ev; cbn [andb orb] in Hrun.
        -- destruct (Z.eqb_spec dig 9).
           ++ inversion Hrun; subst r. apply stop_carry; auto.
              unfold bound. fold rm. lia.
           ++ destruct (Z.compare_spec rm mlo) as [Ej | Ej | Ej];
                cbn [is_Gt] in Hrun; inversion Hrun; subst r.
              ** apply stop_down; auto. unfold bound. fold rm. lia.
              ** apply stop_down; auto.
              ** apply stop_up; auto. unfold bound. fold rm. lia.
        -- destruct (Z.compare_spec rm mlo) as [Ej | Ej | Ej];
             cbn [is_Lt is_Eq is_Gt orb andb] in Hrun.
           ++ apply continue_with; auto. apply IH; auto; lia.
           ++ destruct (Z.eqb_spec rm 0) as [E0 | E0];
                inversion Hrun; subst r; apply stop_down; auto.
           ++ apply continue_with; auto. apply IH; auto; lia.
      * destruct (Z.compare_spec rm mlo) as [Ej | Ej | Ej];
          cbn [is_Lt is_Eq is_Gt orb andb] in Hrun.
        -- destruct ev; cbn [andb orb] in Hrun.
           ++ destruct (Z.eqb_spec rm 0) as [E0 | E0]; [lia|].
              inversion Hrun; subst r. apply stop_down; auto.
              unfold bound. fold rm. lia.
           ++ apply continue_with; auto. apply IH; auto; lia.
        -- destruct (Z.eqb_spec rm 0) as [E0 | E0];
             inversion Hrun; subst r; apply stop_down; auto.
        -- apply continue_with; auto. apply IH; auto; lia.
      * destruct (Z.compare_spec rm mlo) as [Ej | Ej | Ej];
          cbn [is_Lt is_Eq is_Gt orb andb] in Hrun.
        -- destruct ev; cbn [andb orb] in Hrun.
           ++ destruct (Z.eqb_spec rm 0) as [E0 | E0]; [lia|].
              destruct (is_Gt (2 * rm ?= S) || is_Eq (2 * rm ?= S) && Z.odd dig).
              ** destruct (Z.eqb_spec dig 9); inversion Hrun; subst r.
                 --- apply stop_carry; auto. apply Hup. lia.
                 --- apply stop_up; auto. apply Hup. lia.
              ** inversion Hrun; subst r. apply stop_down; auto.
                 unfold bound. fold rm. lia.
           ++ destruct (Z.eqb_spec dig 9); inversion Hrun; subst r.
              ** apply stop_carry; auto. apply Hup. lia.
              ** apply stop_up; auto. apply Hup. lia.
        -- destruct (Z.eqb_spec rm 0) as [E0 | E0].
           ++ inversion Hrun; subst r. apply stop_down; auto.
           ++ destruct (is_Gt (2 * rm ?= S) || is_Eq (2 * rm ?= S) && Z.odd dig).
              ** destruct (Z.eqb_spec dig 9); inversion Hrun; subst r.
                 --- apply stop_carry; auto. apply Hup. lia.
                 --- apply stop_up; auto. apply Hup. lia.
              ** inversion Hrun; subst r. apply stop_down; auto.
        -- destruct (Z.eqb_spec dig 9); inversion Hrun; subst r.
           ++ apply stop_carry; auto. apply Hup. lia.
           ++ apply stop_up; auto. apply Hup. lia.
Qed.

End DigitLoopSpec.

Section DigitLoopTotal.

Import PyRepr.

Ltac split_ifs :=
  repeat match goal with
         | |- context [if ?c then _ else _] => destruct c
         end.

(** The loop stops at the latest when [mhi] has outgrown [S]. *)
Lemma digit_loop_total (ev : bool) (n : nat) :
  forall b S mlo mhi acc,
  0 < S -> 0 < mhi -> S < mhi * 10 ^ Z.of_nat n ->
  digit_loop (Datatypes.S n) ev b S mlo mhi acc <> None.
Proof.
  induction n as [|n IH]; intros b S mlo mhi acc HS Hmhi Hlt;
    rewrite digit_loop_step; cbv zeta.
  - change (10 ^ Z.of_nat 0) with 1 in Hlt.
    assert ((S - mhi <? 0) = true) as -> by (apply Z.ltb_lt; lia).
    cbn [is_Eq is_Gt andb].
    split_ifs; discriminate.
  - rewrite Nat2Z.inj_succ, Z.pow_succ_r in Hlt by lia.
    assert (S < 10 * mhi * 10 ^ Z.of_nat n) as Hlt' by lia.
    pose proof (fun b' acc' =>
      IH b' S (10 * mlo) (10 * mhi) acc' HS ltac:(lia) Hlt') as IH'.
    destruct (is_Eq (if S - mhi <? 0 then Gt else b mod S ?= S - mhi) && ev).
    { split_ifs; discriminate. }
    destruct (is_Lt (b mod S ?= mlo) || is_Eq (b mod S ?= mlo) && ev).
    { split_ifs; discriminate. }
    destruct (is_Gt (if S - mhi <? 0 then Gt else b mod S ?= S - mhi)).
    { split_ifs; discriminate. }
    apply IH'.
Qed.

Lemma loop_fuel_enough (S mhi : Z) :
  0 < S -> 0 < mhi ->
  exists n, loop_fuel S = Datatypes.S n /\ S < mhi * 10 ^ Z.of_nat n.
Proof.
  intros HS Hmhi. unfold loop_fuel.
  exists (Z.to_nat (Z.log2 S) + 1)%nat. split; [lia|].
  pose proof (Z.log2_nonneg S) as Hl.
  destruct (Z.log2_spec S HS) as [_ Hhi].
  rewrite Nat2Z.inj_add, Z2Nat.id by assumption.
  change (Z.of_nat 1) with 1.
  assert (2 ^ Z.succ (Z.log2 S) <= 10 ^ (Z.log2 S + 1)).
  { apply Z.pow_le_mono_l. lia. }
  nia.
Qed.

(** [roundoff] adds one to the number written by the digits. *)
Lemma roundoff_spec (acc : list Z) :
  Forall is_decimal_digit acc ->
  Forall is_decimal_digit (fst (roundoff acc)) /\
  fst (roundoff acc) <> [] /\
  exists j, 0 <= j /\
    digits_value (rev (fst (roundoff acc))) * 10 ^ j =
      digits_value (rev acc) + 1 /\
    Z.of_nat (List.length (fst (roundoff acc))) + j =
      Z.of_nat (List.length acc) + (if snd (roundoff acc) then 1 else 0).
Proof.
  induction acc as [|d acc IH]; intros Hdig.
  - cbn. repeat split.
    + constructor; [unfold is_decimal_digit; lia | constructor].
    + discriminate.
    + exists 0. split; [lia|]. split; reflexivity.
  - inversion Hdig as [|? ? Hd Hacc]; subst.
    cbn [roundoff]. destruct (Z.eqb_spec d 9) as [-> | Hn9].
    + destruct (IH Hacc) as (H1 & H2 & j & Hj & Hval & Hlen).
      repeat split; try assumption.
      exists (j + 1). split; [lia|]. split.
      * cbn [rev]. rewrite digits_value_snoc.
        rewrite Z.pow_add_r by lia. change (10 ^ 1) with 10.
        rewrite Z.mul_assoc, Hval. ring.
      * cbn [List.length]. lia.
    + cbn [fst snd]. repeat split.
      * constructor; [unfold is_decimal_digit in *; lia | assumption].
      * discriminate.
      * exists 0. split; [lia|]. split; [|cbn [List.length]; lia].
        cbn [rev]. rewrite !digits_value_snoc. change (10 ^ 0) with 1. ring.
Qed.

End DigitLoopTotal.

(** ** The decimal exponent *)

Section FirstDigit.

Import B64 PyRepr.

Lemma forallb_range (f : Z -> bool) (n : nat) :
  forallb f (map Z.of_nat (seq 0 n)) = true ->
  forall z, 0 <= z < Z.of_nat n -> f z = true.
Proof.
  intros H z Hz. rewrite forallb_forall in H. apply H.
  apply in_map_iff. exists (Z.to_nat z). split; [lia|].
  apply in_seq. lia.
Qed.

Lemma estimate_ok_all (pb : Z) : 0 <= pb < 2098 -> estimate_ok pb = true.
Proof.
  apply (forallb_range estimate_ok 2098). vm_compute. reflexivity.
Qed.

End FirstDigit.

Section FirstDigitSpec.

Import B64 PyRepr.

Lemma is_pow_inv (b z n d : Z) : is_pow b z n d -> is_pow b (- z) d n.
Proof.
  intros (Hn & Hd & E). repeat split; try assumption.
  rewrite Z.opp_involutive. symmetry. exact E.
Qed.

Lemma is_pow_scale_opp (z : Z) : is_pow 10 (- z) (scale 10 (- z)) (scale 10 z).
Proof.
  pose proof (is_pow_scale 10 ltac:(lia) (- z)) as H.
  now rewrite Z.opp_involutive in H.
Qed.

Lemma initial_pos (m : positive) (e : Z) :
  -1074 <= e ->
  0 < sc_b (initial m e) /\ 0 < sc_S (initial m e) /\
  0 < sc_mlo (initial m e) /\ 0 < sc_mhi (initial m e) /\
  sc_mlo (initial m e) < sc_b (initial m e).
Proof.
  intros He. unfold initial. cbv zeta. cbn [sc_b sc_S sc_mlo sc_mhi].
  pose proof (pow2_pos (e + 1074) ltac:(lia)).
  pose proof (pow2_pos 1074 ltac:(lia)).
  destruct (boundary m e); nia.
Qed.

(** After [scale_to_first_digit] the first digit is the integer part of
    [b / S], and the quantities are those of [initial] scaled by
    [10^-k]. *)
Lemma scale_to_first_digit_spec (m : positive) (e : Z) :
  bounded prec emax m e = true ->
  exists c1 c2,
    is_pow 10 (- fst (scale_to_first_digit m e)) c1 c2 /\
    snd (scale_to_first_digit m e) =
      Scaled (sc_b (initial m e) * c1) (sc_S (initial m e) * c2)
             (sc_mlo (initial m e) * c1) (sc_mhi (initial m e) * c1) /\
    sc_S (snd (scale_to_first_digit m e))
      <= sc_b (snd (scale_to_first_digit m e))
      < 10 * sc_S (snd (scale_to_first_digit m e)).
Proof.
  intros Hb. apply bounded_iff in Hb. destruct Hb as [Hcan He].
  assert (-1074 <= e) as He0 by lia.
  assert (Zpos m < 2 ^ 53) as Hm53 by lia.
  pose proof (Z.log2_nonneg (Zpos m)) as Hl0.
  destruct (Z.log2_spec (Zpos m) ltac:(lia)) as [Hl1 Hl2].
  assert (Z.log2 (Zpos m) < 53) as Hl53 by (apply Z.log2_lt_pow2; lia).
  set (pb := Z.log2 (Zpos m) + (e + 1074)).
  pose proof (estimate_ok_all pb ltac:(unfold pb; lia)) as Hok.
  unfold estimate_ok in Hok. cbv zeta in Hok.
  replace (pb - 1074) with (Z.log2 (Zpos m) + e) in Hok by (unfold pb; lia).
  apply andb_true_iff in Hok. destruct Hok as [Hok1 Hok2].
  apply Z.leb_le in Hok1, Hok2.
  assert (2 ^ pb <= Zpos m * 2 ^ (e + 1074)) as Hx1.
  { unfold pb. rewrite (Z.pow_add_r 2 (Z.log2 (Zpos m)) (e + 1074)) by lia.
    pose proof (pow2_pos (e + 1074) ltac:(lia)). nia. }
  assert (Zpos m * 2 ^ (e + 1074) < 2 ^ (pb + 1)) as Hx2.
  { replace (pb + 1) with (Z.succ (Z.log2 (Zpos m)) + (e + 1074))
      by (unfold pb; lia).
    rewrite (Z.pow_add_r 2 (Z.succ (Z.log2 (Zpos m))) (e + 1074)) by lia.
    pose proof (pow2_pos (e + 1074) ltac:(lia)). nia. }
  unfold scale_to_first_digit. cbv zeta.
  set (k := log10_estimate (Z.log2 (Zpos m) + e)) in *.
  pose proof (scale_pos 10 ltac:(lia) k) as HTk.
  pose proof (scale_pos 10 ltac:(lia) (- k)) as HTnk.
  destruct (initial_pos m e He0) as (Hb0 & HS0 & Hmlo0 & Hmhi0 & _).
  assert (sc_b (initial m e) * 2 ^ 1074 =
          sc_S (initial m e) * (Zpos m * 2 ^ (e + 1074))) as Hratio.
  { unfold initial. cbv zeta. cbn [sc_b sc_S]. ring. }
  pose proof (pow2_pos 1074 ltac:(lia)) as HK.
  set (K := 2 ^ 1074) in *. set (X := Zpos m * 2 ^ (e + 1074)) in *.
  set (P := 2 ^ pb) in *. set (P1 := 2 ^ (pb + 1)) in *.
  unfold apply_exponent. cbn [sc_b sc_S sc_mlo sc_mhi].
  set (b0 := sc_b (initial m e)) in *. set (S0 := sc_S (initial m e)) in *.
  set (mlo0 := sc_mlo (initial m e)) in *.
  set (mhi0 := sc_mhi (initial m e)) in *.
  set (Tk := scale 10 k) in *. set (Tnk := scale 10 (- k)) in *.
  assert (K * (S0 * Tk) <= K * (10 * (b0 * Tnk))) as Hlow.
  { replace (K * (10 * (b0 * Tnk))) with (10 * Tnk * (b0 * K)) by ring.
    rewrite Hratio. nia. }
  assert (K * (b0 * Tnk) < K * (100 * (S0 * Tk))) as Hhigh.
  { replace (K * (b0 * Tnk)) with (Tnk * (b0 * K)) by ring.
    rewrite Hratio. nia. }
  destruct (Z.ltb_spec (b0 * Tnk) (S0 * Tk)) as [Hlt | Hge].
  - exists (10 * Tnk), Tk. cbn [fst snd sc_b sc_S]. split; [|split].
    + apply (is_pow_eq 10 (1 + - k)); [lia|].
      replace Tk with (1 * Tk) by ring.
      apply is_pow_mul; [lia | apply (is_pow_nonneg 10 ltac:(lia) 1); lia |].
      apply is_pow_scale_opp.
    + f_equal; ring.
    + nia.
  - destruct (Z.leb_spec (10 * (S0 * Tk)) (b0 * Tnk)) as [Hbig | Hsmall].
    + exists Tnk, (10 * Tk). cbn [fst snd sc_b sc_S]. split; [|split].
      * apply (is_pow_eq 10 (- (1) + - k)); [lia|].
        replace Tnk with (1 * Tnk) by ring.
        apply is_pow_mul; [lia | apply (is_pow_nonpos 10 ltac:(lia) 1); lia |].
        apply is_pow_scale_opp.
      * f_equal; ring.
      * nia.
    + exists Tnk, Tk. cbn [fst snd sc_b sc_S]. split; [|split].
      * apply is_pow_scale_opp.
      * reflexivity.
      * lia.
Qed.

End FirstDigitSpec.

(** ** [dtoa]: the digits denote a value in the rounding interval *)

Section Dtoa.

Import B64 PyRepr.

(** From the scale of the digit loop back to the scale of [initial]. *)
Lemma finish_interval (ev : bool) (b S mlo mhi c1 c2 k D j L L' decpt : Z) :
  is_pow 10 (- k) c1 c2 -> 0 <= j -> 1 <= L ->
  decpt - L' = k + 1 - L + j ->
  in_interval ev (Scaled (b * c1) (S * c2) (mlo * c1) (mhi * c1))
    (D * 10 ^ j) (10 ^ (L - 1)) ->
  in_interval ev (Scaled b S mlo mhi)
    (D * scale 10 (decpt - L')) (scale 10 (L' - decpt)).
Proof.
  intros Hpow Hj HL Hexp Hin.
  pose proof Hpow as (Hc1 & Hc2 & _).
  apply in_interval_rescale in Hin; try assumption.
  assert (0 < 10 ^ (L - 1)) by (apply Z.pow_pos_nonneg; lia).
  pose proof (scale_pos 10 ltac:(lia) (L' - decpt)).
  revert Hin. apply in_interval_ratio; [nia | assumption |].
  assert (is_pow 10 (decpt - L') (10 ^ j * c2 * 1) (1 * c1 * 10 ^ (L - 1)))
    as H1.
  { apply (is_pow_eq 10 (j + k + - (L - 1))); [lia|].
    apply is_pow_mul; [lia | | apply is_pow_nonpos; lia].
    apply is_pow_mul; [lia | apply is_pow_nonneg; lia |].
    apply (is_pow_eq 10 (- - k)); [lia|]. now apply is_pow_inv. }
  pose proof (is_pow_scale 10 ltac:(lia) (decpt - L')) as H2.
  replace (- (decpt - L')) with (L' - decpt) in H2 by lia.
  pose proof (is_pow_unique 10 ltac:(lia) _ _ _ _ _ H1 H2) as E.
  transitivity (D * (10 ^ j * c2 * 1 * scale 10 (L' - decpt))); [ring|].
  rewrite E. ring.
Qed.

Theorem dtoa_spec (m : positive) (e : Z) :
  bounded prec emax m e = true ->
  exists ds decpt,
    dtoa m e = Some (ds, decpt) /\ ds <> [] /\
    Forall is_decimal_digit ds /\
    in_interval (Z.even (Zpos m)) (initial m e)
      (digits_value ds * scale 10 (decpt - Z.of_nat (List.length ds)))
      (scale 10 (Z.of_nat (List.length ds) - decpt)).
Proof.
  intros Hb.
  destruct (scale_to_first_digit_spec m e Hb) as (c1 & c2 & Hpow & Hx & Hrange).
  apply bounded_iff in Hb. destruct Hb as [Hcan He].
  destruct (initial_pos m e ltac:(lia)) as (Hb0 & HS0 & Hmlo0 & Hmhi0 & _).
  pose proof Hpow as (Hc1 & Hc2 & _).
  unfold dtoa.
  destruct (scale_to_first_digit m e) as [k x]. cbn [fst snd] in *.
  destruct (initial m e) as [b0 S0 mlo0 mhi0]. cbn [sc_b sc_S sc_mlo sc_mhi] in *.
  subst x. cbn [sc_b sc_S sc_mlo sc_mhi] in *.
  assert (0 < S0 * c2) as HS by nia.
  assert (0 < mlo0 * c1) as Hmlo by nia.
  assert (0 < mhi0 * c1) as Hmhi by nia.
  destruct (loop_fuel_enough (S0 * c2) (mhi0 * c1) HS Hmhi) as (n & -> & Hn).
  pose proof (digit_loop_total (Z.even (Zpos m)) n (b0 * c1) (S0 * c2)
                (mlo0 * c1) (mhi0 * c1) [] HS Hmhi Hn) as Htot.
  destruct (digit_loop (Datatypes.S n) (Z.even (Zpos m)) (b0 * c1) (S0 * c2)
              (mlo0 * c1) (mhi0 * c1) []) as [[acc c]|] eqn:Hrun;
    [|contradiction].
  apply digit_loop_spec in Hrun; try lia.
  destruct Hrun as (nd & Hacc & Hne & Hdig & Hin).
  cbn [fst snd] in Hacc, Hin. rewrite app_nil_r in Hacc. subst acc.
  assert (1 <= Z.of_nat (List.length nd)) as HL
    by (destruct nd; [contradiction | cbn [List.length]; lia]).
  destruct c.
  - pose proof (roundoff_spec (rev nd) (Forall_rev Hdig))
      as (Hd' & Hne' & j & Hj & Hval & Hlen).
    destruct (roundoff (rev nd)) as [acc' cy]. cbn [fst snd] in *.
    rewrite rev_involutive in Hval. rewrite length_rev in Hlen.
    exists (rev acc'), (if cy then k + 2 else k + 1).
    split; [reflexivity|]. split.
    { intros E. apply Hne'. apply (f_equal (@rev Z)) in E.
      now rewrite rev_involutive in E. }
    split; [now apply Forall_rev|].
    rewrite length_rev.
    apply (finish_interval _ _ _ _ _ c1 c2 k _ j (Z.of_nat (List.length nd)));
      try assumption.
    + destruct cy; lia.
    + now rewrite Hval.
  - rewrite rev_involutive.
    exists nd, (k + 1). split; [reflexivity|]. split; [assumption|].
    split; [assumption|].
    apply (finish_interval _ _ _ _ _ c1 c2 k _ 0 (Z.of_nat (List.length nd)));
      try assumption; try lia.
    change (10 ^ 0) with 1. rewrite Z.mul_1_r.
    now rewrite Z.add_0_r in Hin.
Qed.

End Dtoa.

(** ** Reading back what [layout] writes *)

Section Lexing.

Import PyFloat PyRepr.

Lemma digit_cases (d : Z) :
  is_decimal_digit d ->
  d = 0 \/ d = 1 \/ d = 2 \/ d = 3 \/ d = 4 \/
  d = 5 \/ d = 6 \/ d = 7 \/ d = 8 \/ d = 9.
Proof. unfold is_decimal_digit. lia. Qed.

Ltac each_digit H :=
  apply digit_cases in H;
  repeat (destruct H as [H | H]; [subst | ]); subst.

Lemma digit_roundtrip (d : Z) :
  is_decimal_digit d -> digit_of_ascii (ascii_of_digit d) = Some d.
Proof. intros H. each_digit H; reflexivity. Qed.

Lemma digit_plain (d : Z) :
  is_decimal_digit d -> plain_char (ascii_of_digit d) = true.
Proof. intros H. each_digit H; reflexivity. Qed.

Lemma take_digits_stop (rest : list ascii) :
  starts_with_digit rest = false -> take_digits rest = ([], rest).
Proof.
  destruct rest as [|c r]; [reflexivity|].
  cbn [starts_with_digit take_digits]. unfold is_digit.
  now destruct (digit_of_ascii c).
Qed.

Lemma take_digits_render (ds : list Z) (rest : list ascii) :
  Forall is_decimal_digit ds -> starts_with_digit rest = false ->
  take_digits (render_digits ds ++ rest) = (ds, rest).
Proof.
  intros Hds Hrest. induction Hds as [|d ds Hd Hds IH].
  - now apply take_digits_stop.
  - cbn [render_digits map app take_digits].
    fold (render_digits ds).
    now rewrite (digit_roundtrip d Hd), IH.
Qed.

Lemma take_digits_render_end (ds : list Z) :
  Forall is_decimal_digit ds -> take_digits (render_digits ds) = (ds, []).
Proof.
  intros H. rewrite <- (app_nil_r (render_digits ds)).
  now apply take_digits_render.
Qed.

(** *** The exponent field *)

Lemma digits_of_fuel_spec (fuel : nat) :
  forall n acc, 0 <= n < 10 ^ (Z.of_nat fuel + 1) ->
  exists l, digits_of_fuel fuel n acc = l ++ acc /\ l <> [] /\
            Forall is_decimal_digit l /\ digits_value l = n.
Proof.
  induction fuel as [|fuel IH]; intros n acc Hn.
  - change (10 ^ (Z.of_nat 0 + 1)) with 10 in Hn.
    exists [n]. split; [reflexivity|]. split; [discriminate|]. split.
    + constructor; [unfold is_decimal_digit; lia | constructor].
    + unfold digits_value. simpl. lia.
  - cbn [digits_of_fuel]. destruct (Z.ltb_spec n 10) as [Hlt | Hge].
    + exists [n]. split; [reflexivity|]. split; [discriminate|]. split.
      * constructor; [unfold is_decimal_digit; lia | constructor].
      * unfold digits_value. simpl. lia.
    + assert (0 <= n / 10 < 10 ^ (Z.of_nat fuel + 1)) as Hq.
      { split; [apply Z.div_pos; lia|].
        apply Z.div_lt_upper_bound; [lia|].
        rewrite <- Z.pow_succ_r by lia.
        replace (Z.succ (Z.of_nat fuel + 1))
          with (Z.of_nat (Datatypes.S fuel) + 1) by lia.
        apply Hn. }
      destruct (IH (n / 10) (n mod 10 :: acc) Hq) as (l & E & Hne & Hd & Hv).
      exists (l ++ [n mod 10]). split; [|split; [|split]].
      * rewrite E, <- app_assoc. reflexivity.
      * destruct l; discriminate.
      * apply Forall_app. split; [assumption|].
        constructor; [|constructor].
        pose proof (Z.mod_pos_bound n 10 ltac:(lia)).
        unfold is_decimal_digit. lia.
      * rewrite digits_value_snoc, Hv.
        pose proof (Z.div_mod n 10 ltac:(lia)). lia.
Qed.

Lemma digits_of_spec (n : Z) :
  0 <= n ->
  digits_of n <> [] /\ Forall is_decimal_digit (digits_of n) /\
  digits_value (digits_of n) = n.
Proof.
  intros Hn. unfold digits_of.
  assert (0 <= n < 10 ^ (Z.of_nat (Z.to_nat (Z.log2 n)) + 1)) as Hb.
  { split; [assumption|].
    rewrite Z2Nat.id by apply Z.log2_nonneg.
    destruct (Z.eq_dec n 0) as [-> | Hnz]; [reflexivity|].
    destruct (Z.log2_spec n ltac:(lia)) as [_ Hhi].
    eapply Z.lt_le_trans; [exact Hhi|].
    apply Z.pow_le_mono_l. lia. }
  destruct (digits_of_fuel_spec _ n [] Hb) as (l & E & Hne & Hd & Hv).
  rewrite E, app_nil_r. auto.
Qed.

Lemma render_exponent_spec (ex : Z) :
  exists d ed,
    render_exponent ex =
      (if ex <? 0 then "-"%char else "+"%char) :: render_digits (d :: ed) /\
    Forall is_decimal_digit (d :: ed) /\
    cond_Zopp (ex <? 0) (digits_value (d :: ed)) = ex.
Proof.
  destruct (digits_of_spec (Z.abs ex) (Z.abs_nonneg ex)) as (Hne & Hd & Hv).
  unfold render_exponent.
  assert (cond_Zopp (ex <? 0) (Z.abs ex) = ex) as Hsign.
  { destruct (Z.ltb_spec ex 0); cbn [cond_Zopp]; lia. }
  destruct (Z.abs ex <? 10).
  - exists 0, (digits_of (Z.abs ex)). split; [reflexivity|]. split.
    + constructor; [unfold is_decimal_digit; lia | assumption].
    + rewrite digits_value_cons, Hv. exact Hsign.
  - destruct (digits_of (Z.abs ex)) as [|d ed] eqn:E; [contradiction|].
    exists d, ed. split; [reflexivity|]. split; [assumption|].
    rewrite Hv. exact Hsign.
Qed.

Lemma parse_exponent (ex : Z) :
  exists d ed,
    parse_sign (render_exponent ex) = (ex <? 0, render_digits (d :: ed)) /\
    take_digits (render_digits (d :: ed)) = (d :: ed, []) /\
    cond_Zopp (ex <? 0) (digits_value (d :: ed)) = ex.
Proof.
  destruct (render_exponent_spec ex) as (d & ed & E & Hd & Hv).
  exists d, ed. rewrite E. split; [|split].
  - destruct (ex <? 0); reflexivity.
  - now apply take_digits_render_end.
  - exact Hv.
Qed.

(** *** The three shapes of a numeral *)

Lemma nonempty_pair {A} (ip fp : list A) (R : Type) (x y : R) :
  ip <> [] \/ fp <> [] ->
  match ip, fp with [], [] => x | _, _ => y end = y.
Proof. destruct ip, fp; intros [H | H]; try reflexivity; contradiction. Qed.

Lemma lex_fixed (s : bool) (ip fp : list Z) :
  Forall is_decimal_digit ip -> Forall is_decimal_digit fp ->
  ip <> [] \/ fp <> [] ->
  lex_unsigned s (render_digits ip ++ "."%char :: render_digits fp) =
  Some (Numeral s ip fp 0).
Proof.
  intros Hip Hfp Hne. unfold lex_unsigned.
  rewrite (take_digits_render ip ("."%char :: render_digits fp) Hip eq_refl).
  cbv iota beta.
  rewrite (take_digits_render_end fp Hfp).
  now rewrite nonempty_pair.
Qed.

Lemma lex_point_exponent (s : bool) (ip fp : list Z) (ex : Z) :
  Forall is_decimal_digit ip -> Forall is_decimal_digit fp ->
  ip <> [] \/ fp <> [] ->
  lex_unsigned s (render_digits ip ++ "."%char :: render_digits fp
                    ++ "e"%char :: render_exponent ex) =
  Some (Numeral s ip fp ex).
Proof.
  intros Hip Hfp Hne. unfold lex_unsigned.
  rewrite (take_digits_render ip
             ("."%char :: render_digits fp ++ "e"%char :: render_exponent ex)
             Hip eq_refl).
  cbv iota beta.
  rewrite (take_digits_render fp ("e"%char :: render_exponent ex) Hfp eq_refl).
  rewrite nonempty_pair by assumption.
  destruct (parse_exponent ex) as (d & ed & E1 & E2 & E3).
  change (is_e "e") with true. cbv iota.
  now rewrite E1, E2, E3.
Qed.

Lemma lex_exponent (s : bool) (ip : list Z) (ex : Z) :
  Forall is_decimal_digit ip -> ip <> [] ->
  lex_unsigned s (render_digits ip ++ "e"%char :: render_exponent ex) =
  Some (Numeral s ip [] ex).
Proof.
  intros Hip Hne. unfold lex_unsigned.
  rewrite (take_digits_render ip ("e"%char :: render_exponent ex) Hip eq_refl).
  destruct ip as [|d0 ip]; [contradiction|].
  cbv iota beta.
  destruct (parse_exponent ex) as (d & ed & E1 & E2 & E3).
  change (is_e "e") with true. cbv iota.
  now rewrite E1, E2, E3.
Qed.

End Lexing.

Section LayoutLexing.

Import PyFloat PyRepr.

Lemma render_digits_app (a b : list Z) :
  render_digits (a ++ b) = render_digits a ++ render_digits b.
Proof. apply map_app. Qed.

Lemma zeros_render (n : Z) : zeros n = render_digits (repeat 0 (Z.to_nat n)).
Proof.
  unfold zeros, render_digits. induction (Z.to_nat n) as [|k IH].
  - reflexivity.
  - cbn [repeat map]. now rewrite IH.
Qed.

Lemma repeat_zero_digits (k : nat) : Forall is_decimal_digit (repeat 0 k).
Proof.
  induction k; cbn [repeat]; constructor; try assumption.
  unfold is_decimal_digit. lia.
Qed.

Lemma digits_value_zeros (k : nat) : digits_value (repeat 0 k) = 0.
Proof.
  induction k as [|k IH]; [reflexivity|].
  cbn [repeat]. rewrite digits_value_cons, IH. lia.
Qed.

Lemma digits_value_leading_zeros (k : nat) (l : list Z) :
  digits_value (repeat 0 k ++ l) = digits_value l.
Proof. rewrite digits_value_app, digits_value_zeros. lia. Qed.

Lemma digits_value_trailing_zeros (l : list Z) (k : nat) :
  digits_value (l ++ repeat 0 k) = digits_value l * 10 ^ Z.of_nat k.
Proof. rewrite digits_value_app, digits_value_zeros, repeat_length. lia. Qed.

(** What is read back from [layout ds decpt] denotes
    [digits_value ds * 10^(decpt - length ds)]. *)
Lemma layout_lex (ds : list Z) (decpt : Z) :
  ds <> [] -> Forall is_decimal_digit ds ->
  exists ip fp ex,
    (forall s, lex_unsigned s (layout ds decpt) = Some (Numeral s ip fp ex)) /\
    digits_value (ip ++ fp) * scale 10 (ex - Z.of_nat (List.length fp))
      * scale 10 (Z.of_nat (List.length ds) - decpt) =
    digits_value ds * scale 10 (decpt - Z.of_nat (List.length ds))
      * scale 10 (- (ex - Z.of_nat (List.length fp))).
Proof.
  intros Hne Hds. unfold layout. cbv zeta.
  set (n := Z.of_nat (List.length ds)).
  destruct ((decpt <=? -4) || (16 <? decpt)) eqn:Hexp.
  { (* exponent form *)
    destruct ds as [|d [|d1 r]]; [contradiction | |].
    - exists [d], [], (decpt - 1). split.
      + intros s. apply (lex_exponent s [d] (decpt - 1)); [assumption|discriminate].
      + cbn [app List.length] in *. unfold n.
        replace (decpt - 1 - Z.of_nat 0) with (decpt - Z.of_nat 1) by lia.
        replace (- (decpt - Z.of_nat 1)) with (Z.of_nat 1 - decpt) by lia.
        ring.
    - exists [d], (d1 :: r), (decpt - 1). split.
      + intros s. inversion Hds as [|? ? Hd Hr]; subst.
        apply (lex_point_exponent s [d] (d1 :: r) (decpt - 1)).
        * constructor; [assumption | constructor].
        * assumption.
        * left. discriminate.
      + cbn [app]. unfold n.
        replace (decpt - 1 - Z.of_nat (List.length (d1 :: r)))
          with (decpt - Z.of_nat (List.length (d :: d1 :: r)))
          by (cbn [List.length]; lia).
        replace (- (decpt - Z.of_nat (List.length (d :: d1 :: r))))
          with (Z.of_nat (List.length (d :: d1 :: r)) - decpt) by lia.
        ring. }
  destruct (Z.leb_spec decpt 0) as [Hneg | Hpos].
  { (* 0.000ddd *)
    exists [0], (repeat 0 (Z.to_nat (- decpt)) ++ ds), 0. split.
    - intros s. rewrite zeros_render, <- render_digits_app.
      apply (lex_fixed s [0]).
      + constructor; [unfold is_decimal_digit; lia | constructor].
      + apply Forall_app. split; [apply repeat_zero_digits | assumption].
      + left. discriminate.
    - cbn [app]. rewrite digits_value_cons, digits_value_leading_zeros.
      rewrite length_app, repeat_length, Nat2Z.inj_add, Z2Nat.id by lia.
      fold n.
      replace (0 - (- decpt + n)) with (decpt - n) by lia.
      replace (- (decpt - n)) with (n - decpt) by lia.
      ring. }
  destruct (Z.ltb_spec decpt n) as [Hin | Hout].
  { (* ddd.ddd *)
    exists (firstn (Z.to_nat decpt) ds), (skipn (Z.to_nat decpt) ds), 0.
    pose proof (firstn_skipn (Z.to_nat decpt) ds) as Hsplit.
    assert (Forall is_decimal_digit (firstn (Z.to_nat decpt) ds) /\
            Forall is_decimal_digit (skipn (Z.to_nat decpt) ds)) as [H1 H2].
    { apply Forall_app. now rewrite Hsplit. }
    split.
    - intros s. apply lex_fixed; try assumption.
      left. intros E. apply (f_equal (@List.length Z)) in E.
      rewrite length_firstn in E. cbn [List.length] in E. unfold n in Hin. lia.
    - rewrite Hsplit, length_skipn. fold n.
      replace (0 - Z.of_nat (List.length ds - Z.to_nat decpt))
        with (decpt - n) by (unfold n in *; lia).
      replace (- (decpt - n)) with (n - decpt) by lia.
      ring. }
  (* ddd000.0 *)
  exists (ds ++ repeat 0 (Z.to_nat (decpt - n))), [0], 0. split.
  - intros s. rewrite zeros_render, app_assoc, <- render_digits_app.
    apply (lex_fixed s _ [0]).
    + apply Forall_app. split; [assumption | apply repeat_zero_digits].
    + constructor; [unfold is_decimal_digit; lia | constructor].
    + right. discriminate.
  - rewrite digits_value_snoc, digits_value_trailing_zeros.
    rewrite Z2Nat.id by lia. cbn [List.length].
    change (0 - Z.of_nat 1) with (-1). change (- (-1)) with 1.
    rewrite (scale_neg 10 (-1)), (scale_nonneg 10 1) by lia.
    rewrite (scale_neg 10 (n - decpt)), (scale_nonneg 10 (decpt - n)) by lia.
    change (10 ^ 1) with 10. ring.
Qed.

(** The characters written by [layout] are plain. *)
Lemma render_digits_plain (ds : list Z) :
  Forall is_decimal_digit ds ->
  Forall (fun c => plain_char c = true) (render_digits ds).
Proof.
  intros H. unfold render_digits. apply Forall_map.
  eapply Forall_impl; [|exact H]. apply digit_plain.
Qed.

Lemma render_exponent_plain (ex : Z) :
  Forall (fun c => plain_char c = true) (render_exponent ex).
Proof.
  destruct (render_exponent_spec ex) as (d & ed & E & Hd & _).
  rewrite E. constructor.
  - destruct (ex <? 0); reflexivity.
  - now apply render_digits_plain.
Qed.

Lemma layout_plain (ds : list Z) (decpt : Z) :
  Forall is_decimal_digit ds ->
  Forall (fun c => plain_char c = true) (layout ds decpt).
Proof.
  intros Hds. unfold layout. cbv zeta.
  destruct ((decpt <=? -4) || (16 <? decpt)).
  { destruct ds as [|d [|d1 r]]; [constructor | |];
      inversion Hds as [|? ? Hd Hr]; subst.
    - constructor; [now apply digit_plain|].
      constructor; [reflexivity | apply render_exponent_plain].
    - constructor; [now apply digit_plain|].
      constructor; [reflexivity|].
      apply Forall_app. split; [now apply render_digits_plain|].
      constructor; [reflexivity | apply render_exponent_plain]. }
  destruct (decpt <=? 0).
  { constructor; [reflexivity|]. constructor; [reflexivity|].
    apply Forall_app. split; [|now apply render_digits_plain].
    rewrite zeros_render. apply render_digits_plain, repeat_zero_digits. }
  pose proof (firstn_skipn (Z.to_nat decpt) ds) as Hsplit.
  assert (Forall is_decimal_digit (firstn (Z.to_nat decpt) ds) /\
          Forall is_decimal_digit (skipn (Z.to_nat decpt) ds)) as [H1 H2].
  { apply Forall_app. now rewrite Hsplit. }
  destruct (decpt <? Z.of_nat (List.length ds)).
  { apply Forall_app. split; [now apply render_digits_plain|].
    constructor; [reflexivity | now apply render_digits_plain]. }
  apply Forall_app. split; [now apply render_digits_plain|].
  apply Forall_app. split.
  - rewrite zeros_render. apply render_digits_plain, repeat_zero_digits.
  - repeat constructor.
Qed.

(** [layout] starts with a digit. *)
Lemma layout_starts_with_digit (ds : list Z) (decpt : Z) :
  ds <> [] -> Forall is_decimal_digit ds ->
  starts_with_digit (layout ds decpt) = true.
Proof.
  intros Hne Hds. destruct ds as [|d ds]; [contradiction|].
  inversion Hds as [|? ? Hd Hr]; subst.
  assert (is_digit (ascii_of_digit d) = true) as Hdig
    by (unfold is_digit; now rewrite digit_roundtrip).
  unfold layout. cbv zeta.
  destruct ((decpt <=? -4) || (16 <? decpt)).
  { destruct ds; exact Hdig. }
  destruct (Z.leb_spec decpt 0); [reflexivity|].
  destruct (decpt <? Z.of_nat (List.length (d :: ds))).
  - destruct (Z.to_nat decpt) as [|k] eqn:E; [lia|]. exact Hdig.
  - exact Hdig.
Qed.

End LayoutLexing.

(** ** [float] on plain strings *)

Section PlainStrings.

Import B64 PyFloat PyRepr.

Lemma plain_char_inv (c : ascii) :
  plain_char c = true ->
  (code c <? 128) = true /\ Py_ISSPACE c = false /\ Ascii.eqb "_" c = false.
Proof.
  unfold plain_char. rewrite !andb_true_iff, !negb_true_iff.
  intros [[H1 H2] H3]. split; [|split].
  - apply Z.ltb_lt in H1. apply Z.ltb_lt. lia.
  - exact H2.
  - now rewrite Ascii.eqb_sym.
Qed.

Lemma transform_plain (l : list ascii) :
  Forall (fun c => plain_char c = true) l -> transform l = l.
Proof.
  intros H. unfold transform.
  assert (forallb (fun c => code c <? 128) l = true) as ->; [|reflexivity].
  apply forallb_forall. rewrite Forall_forall in H.
  intros c Hc. now apply plain_char_inv, H.
Qed.

Lemma lstrip_plain (l : list ascii) :
  Forall (fun c => plain_char c = true) l -> lstrip l = l.
Proof.
  intros H. destruct H as [|c r Hc _]; [reflexivity|].
  cbn [lstrip]. apply plain_char_inv in Hc as (_ & -> & _). reflexivity.
Qed.

Lemma rstrip_plain (l : list ascii) :
  Forall (fun c => plain_char c = true) l -> rstrip l = l.
Proof.
  intros H. destruct H as [|c r Hc Hr]; [reflexivity|].
  cbn [rstrip]. rewrite lstrip_plain by now apply Forall_rev.
  now rewrite rev_involutive.
Qed.

Lemma remove_underscores_plain (l : list ascii) :
  Forall (fun c => plain_char c = true) l -> remove_underscores l = Some l.
Proof.
  intros H. unfold remove_underscores.
  assert (existsb (Ascii.eqb "_") l = false) as ->; [|reflexivity].
  induction H as [|c r Hc _ IH]; [reflexivity|].
  cbn [existsb]. apply plain_char_inv in Hc as (_ & _ & ->). exact IH.
Qed.

Lemma float_of_chars_plain (l : list ascii) :
  l <> [] -> Forall (fun c => plain_char c = true) l ->
  float_of_chars l =
  match lex_numeral l with
  | Some x => Some (float_of_numeral x)
  | None => parse_inf_or_nan l
  end.
Proof.
  intros Hne H. unfold float_of_chars.
  rewrite transform_plain, lstrip_plain by assumption.
  destruct l as [|c r]; [contradiction|].
  now rewrite rstrip_plain, remove_underscores_plain by assumption.
Qed.

Lemma parse_sign_digit (l : list ascii) :
  starts_with_digit l = true -> parse_sign l = (false, l).
Proof.
  destruct l as [|c r]; [discriminate|].
  cbn [starts_with_digit].
  destruct c as [[] [] [] [] [] [] [] []]; intros H;
    try reflexivity; cbv in H; discriminate.
Qed.

Lemma lex_numeral_signed (s : bool) (l : list ascii) :
  starts_with_digit l = true ->
  lex_numeral (with_sign s l) = lex_unsigned s l.
Proof.
  intros H. unfold lex_numeral, with_sign. destruct s.
  - reflexivity.
  - now rewrite parse_sign_digit.
Qed.

End PlainStrings.

(** ** [float(repr(x))] is [x] *)

Section RoundTrip.

Import B64 PyFloat PyRepr.

Lemma with_sign_plain (s : bool) (l : list ascii) :
  Forall (fun c => plain_char c = true) l ->
  Forall (fun c => plain_char c = true) (with_sign s l).
Proof.
  intros H. destruct s; [|exact H]. constructor; [reflexivity | exact H].
Qed.

(** Every character of [repr x] is plain. *)
Lemma repr_chars_plain (x : float) :
  valid x = true -> Forall (fun c => plain_char c = true) (repr_chars x).
Proof.
  intros Hv. destruct x as [s|s| |s m e]; cbn [repr_chars].
  - apply with_sign_plain, layout_plain.
    constructor; [unfold is_decimal_digit; lia | constructor].
  - apply with_sign_plain. repeat constructor.
  - repeat constructor.
  - destruct (dtoa_spec m e Hv) as (ds & decpt & -> & _ & Hds & _).
    now apply with_sign_plain, layout_plain.
Qed.

(** [repr] always yields digits: the digit loop never runs out of fuel. *)
Lemma repr_chars_nonempty (x : float) :
  valid x = true -> repr_chars x <> [].
Proof.
  intros Hv. destruct x as [s|s| |s m e]; cbn [repr_chars].
  - destruct s; discriminate.
  - destruct s; discriminate.
  - discriminate.
  - destruct (dtoa_spec m e Hv) as (ds & decpt & -> & Hne & Hds & _).
    pose proof (layout_starts_with_digit ds decpt Hne Hds) as H.
    destruct s; [discriminate|].
    cbn [with_sign]. destruct (layout ds decpt); discriminate.
Qed.

Theorem repr_roundtrip (x : float) :
  valid x = true -> is_nan x = false ->
  float_of_string (repr x) = Some x.
Proof.
  intros Hv Hnan. unfold float_of_string, repr.
  rewrite list_ascii_of_string_of_list_ascii.
  destruct x as [s|s| |s m e]; cbn [repr_chars].
  - destruct s; vm_compute; reflexivity.
  - destruct s; vm_compute; reflexivity.
  - discriminate.
  - pose proof (repr_chars_plain _ Hv) as Hplain.
    pose proof (repr_chars_nonempty _ Hv) as Hne.
    cbn [repr_chars] in Hplain, Hne.
    destruct (dtoa_spec m e Hv) as (ds & decpt & Hd & Hdne & Hds & Hin).
    rewrite Hd in *.
    rewrite float_of_chars_plain by assumption.
    rewrite lex_numeral_signed by now apply layout_starts_with_digit.
    destruct (layout_lex ds decpt Hdne Hds) as (ip & fp & ex & Hlex & Heq).
    rewrite Hlex. unfold float_of_numeral.
    cbn [num_sign num_int num_frac num_exp]. cbv zeta.
    set (M := digits_value (ip ++ fp)) in *.
    set (E := ex - Z.of_nat (List.length fp)) in *.
    set (L := Z.of_nat (List.length ds)) in *.
    pose proof (scale_pos 10 ltac:(lia) E) as HTE.
    pose proof (scale_pos 10 ltac:(lia) (- E)) as HTnE.
    pose proof (scale_pos 10 ltac:(lia) (L - decpt)) as HTL.
    assert (in_interval (Z.even (Zpos m)) (initial m e)
              (M * scale 10 E) (scale 10 (- E))) as Hin'.
    { revert Hin. apply in_interval_ratio; try assumption.
      symmetry. exact Heq. }
    assert (0 < M * scale 10 E) as Hpos.
    { apply bounded_iff in Hv as [Hcan _].
      destruct (initial_pos m e ltac:(lia)) as (_ & HS0 & _ & _ & Hlt).
      destruct Hin' as [Hlo _]. apply bound_weaken in Hlo.
      assert (0 < sc_S (initial m e) * (M * scale 10 E)) by nia.
      nia. }
    assert ((M =? 0) = false) as -> by (apply Z.eqb_neq; nia).
    f_equal. apply round_ratio_interval; assumption.
Qed.

End RoundTrip.

(** ** [float] returns valid floats *)

Section ParsedFloats.

Import B64 PyFloat PyRepr.

Lemma digit_of_ascii_range (c : ascii) (d : Z) :
  digit_of_ascii c = Some d -> is_decimal_digit d.
Proof.
  unfold digit_of_ascii, is_decimal_digit.
  destruct (Z.leb_spec 48 (code c)); cbn [andb]; [|discriminate].
  destruct (Z.leb_spec (code c) 57); [|discriminate].
  intros [= <-]. lia.
Qed.

Lemma take_digits_range (l : list ascii) :
  Forall is_decimal_digit (fst (take_digits l)).
Proof.
  induction l as [|c r IH]; cbn [take_digits]; [constructor|].
  destruct (digit_of_ascii c) as [d|] eqn:E; [|constructor].
  destruct (take_digits r) as [ds rest]. cbn [fst] in *.
  constructor; [now apply (digit_of_ascii_range c) | assumption].
Qed.

Lemma lex_unsigned_range (s : bool) (l : list ascii) (x : numeral) :
  lex_unsigned s l = Some x ->
  Forall is_decimal_digit (num_int x ++ num_frac x).
Proof.
  unfold lex_unsigned.
  pose proof (take_digits_range l) as Hip.
  destruct (take_digits l) as [ip l2]. cbn [fst] in Hip.
  assert (Forall is_decimal_digit
            (fst match l2 with
                 | "."%char :: r => take_digits r
                 | _ => ([], l2)
                 end)) as Hfp.
  { destruct l2 as [|c r]; [constructor|].
    destruct (Ascii.eqb_spec c "."%char) as [-> | Hc].
    - apply take_digits_range.
    - destruct c as [[] [] [] [] [] [] [] []];
        try constructor; contradiction. }
  destruct (match l2 with
            | "."%char :: r => take_digits r
            | _ => ([], l2)
            end) as [fp l3].
  cbn [fst] in Hfp.
  assert (forall y, (match l3 with
            | [] => Some (Numeral s ip fp 0)
            | c :: r =>
                if is_e c then
                  let '(es, r1) := parse_sign r in
                  match take_digits r1 with
                  | (d :: ed, []) =>
                      Some (Numeral s ip fp
                              (cond_Zopp es (digits_value (d :: ed))))
                  | _ => None
                  end
                else None
            end) = Some y -> num_int y = ip /\ num_frac y = fp) as Hshape.
  { intros y. destruct l3 as [|c r]; [now intros [= <-]|].
    destruct (is_e c); [|discriminate].
    destruct (parse_sign r) as [es r1].
    destruct (take_digits r1) as [[|d ed] [|c' r']]; try discriminate.
    now intros [= <-]. }
  intros H.
  assert (num_int x = ip /\ num_frac x = fp) as [-> ->].
  { destruct ip, fp; try discriminate; now apply Hshape. }
  apply Forall_app. now split.
Qed.

Lemma float_of_numeral_valid (x : numeral) :
  Forall is_decimal_digit (num_int x ++ num_frac x) ->
  valid (float_of_numeral x) = true.
Proof.
  intros H. unfold float_of_numeral. cbv zeta.
  pose proof (digits_value_nonneg _ H) as Hnn.
  destruct (Z.eqb_spec (digits_value (num_int x ++ num_frac x)) 0);
    [reflexivity|].
  apply round_ratio_valid.
  - pose proof (scale_pos 10 ltac:(lia)
                  (num_exp x - Z.of_nat (List.length (num_frac x)))). nia.
  - apply scale_pos. lia.
Qed.

Lemma parse_inf_or_nan_valid (l : list ascii) (x : float) :
  parse_inf_or_nan l = Some x -> valid x = true.
Proof.
  unfold parse_inf_or_nan. destruct (parse_sign l) as [s r].
  destruct (lower_is r "inf" || lower_is r "infinity").
  - now intros [= <-].
  - destruct (lower_is r "nan"); [now intros [= <-] | discriminate].
Qed.

Theorem float_of_string_valid (s : string) (x : float) :
  float_of_string s = Some x -> valid x = true.
Proof.
  unfold float_of_string, float_of_chars.
  destruct (lstrip (transform (list_ascii_of_string s))) as [|c r];
    [discriminate|].
  destruct (remove_underscores (rstrip (c :: r))) as [t|]; [|discriminate].
  destruct (lex_numeral t) as [y|] eqn:E.
  - intros [= <-]. apply float_of_numeral_valid.
    unfold lex_numeral in E. destruct (parse_sign t) as [sg t1].
    now apply (lex_unsigned_range sg t1).
  - apply parse_inf_or_nan_valid.
Qed.

(** *** Every numeral of the lexical form is accepted *)

Lemma digit_char_plain (c : ascii) (d : Z) :
  digit_of_ascii c = Some d -> plain_char c = true.
Proof.
  destruct c as [[] [] [] [] [] [] [] []]; intros H;
    try reflexivity; cbv in H; discriminate.
Qed.

Lemma take_digits_split (l : list ascii) :
  exists pre,
    l = pre ++ snd (take_digits l) /\
    Forall (fun c => plain_char c = true) pre.
Proof.
  induction l as [|c r (pre & E & Hpre)]; cbn [take_digits].
  - exists []. split; [reflexivity | constructor].
  - destruct (digit_of_ascii c) as [d|] eqn:Hc.
    + destruct (take_digits r) as [ds rest]. cbn [snd] in *.
      exists (c :: pre). split; [cbn [app]; congruence|].
      constructor; [now apply (digit_char_plain c d) | assumption].
    + exists []. split; [reflexivity | constructor].
Qed.

Lemma parse_sign_plain (l : list ascii) :
  Forall (fun c => plain_char c = true) (snd (parse_sign l)) ->
  Forall (fun c => plain_char c = true) l.
Proof.
  destruct l as [|c r]; [constructor|].
  destruct (Ascii.eqb_spec c "-"%char) as [-> | Hm];
    [intros H; constructor; [reflexivity | exact H]|].
  destruct (Ascii.eqb_spec c "+"%char) as [-> | Hp];
    [intros H; constructor; [reflexivity | exact H]|].
  destruct c as [[] [] [] [] [] [] [] []]; try exact (fun H => H);
    contradiction.
Qed.

Lemma lex_unsigned_plain (s : bool) (l : list ascii) (x : numeral) :
  lex_unsigned s l = Some x -> Forall (fun c => plain_char c = true) l.
Proof.
  unfold lex_unsigned.
  destruct (take_digits_split l) as (pre1 & E1 & Hpre1).
  destruct (take_digits l) as [ip l2]. cbn [snd] in E1. subst l.
  intros H. apply Forall_app. split; [assumption|].
  assert (forall l3 fp,
            match ip, fp with
            | [], [] => None
            | _, _ =>
                match l3 with
                | [] => Some (Numeral s ip fp 0)
                | c :: r =>
                    if is_e c then
                      let '(es, r1) := parse_sign r in
                      match take_digits r1 with
                      | (d :: ed, []) =>
                          Some (Numeral s ip fp
                                  (cond_Zopp es (digits_value (d :: ed))))
                      | _ => None
                      end
                    else None
                end
            end = Some x ->
            Forall (fun c => plain_char c = true) l3) as Htail.
  { intros l3 fp Hx.
    assert (match l3 with
            | [] => Some (Numeral s ip fp 0)
            | c :: r =>
                if is_e c then
                  let '(es, r1) := parse_sign r in
                  match take_digits r1 with
                  | (d :: ed, []) =>
                      Some (Numeral s ip fp
                              (cond_Zopp es (digits_value (d :: ed))))
                  | _ => None
                  end
                else None
            end = Some x) as Hx' by (destruct ip, fp; congruence).
    clear Hx. destruct l3 as [|c r]; [constructor|].
    destruct (is_e c) eqn:Hc; [|discriminate].
    constructor.
    - unfold is_e in Hc. apply orb_true_iff in Hc.
      destruct Hc as [Hc | Hc]; apply Ascii.eqb_eq in Hc; subst c; reflexivity.
    - apply parse_sign_plain.
      destruct (parse_sign r) as [es r1]. cbn [snd].
      destruct (take_digits_split r1) as (pre3 & E3 & Hpre3).
      destruct (take_digits r1) as [[|d ed] [|c' r']]; try discriminate.
      cbn [snd] in E3. rewrite app_nil_r in E3. now subst r1. }
  destruct l2 as [|c r]; [now apply (Htail [] [])|].
  destruct (Ascii.eqb_spec c "."%char) as [-> | Hc].
  - constructor; [reflexivity|].
    destruct (take_digits_split r) as (pre2 & E2 & Hpre2).
    destruct (take_digits r) as [fp l3]. cbn [snd] in E2. subst r.
    apply Forall_app. split; [assumption|]. now apply (Htail l3 fp).
  - apply (Htail (c :: r) []).
    destruct c as [[] [] [] [] [] [] [] []]; try exact H; contradiction.
Qed.

(** Whatever has the lexical form of the specification is accepted by
    [float]. *)
Theorem lexical_float_accepted (s : string) :
  Script.lexical_float s = true -> float_of_string s <> None.
Proof.
  unfold Script.lexical_float, float_of_string.
  destruct (lex_numeral (list_ascii_of_string s)) as [x|] eqn:E;
    [intros _ | discriminate].
  assert (Forall (fun c => plain_char c = true) (list_ascii_of_string s))
    as Hplain.
  { unfold lex_numeral in E. apply parse_sign_plain.
    destruct (parse_sign (list_ascii_of_string s)) as [sg l1]. cbn [snd].
    now apply (lex_unsigned_plain sg l1 x). }
  assert (list_ascii_of_string s <> []) as Hne.
  { intros E0. rewrite E0 in E. discriminate. }
  rewrite float_of_chars_plain, E by assumption. discriminate.
Qed.

End ParsedFloats.

(** ** The script: what a run prints and how it exits *)

Section Claims.

Import B64 PyFloat PyRepr Script.
Local Open Scope string_scope.

Lemma repr_not_with_blank (x : float) (s : string) :
  valid x = true ->
  forallb plain_char (list_ascii_of_string s) = false ->
  repr x <> s.
Proof.
  intros Hv Hs E. pose proof (repr_chars_plain x Hv) as Hp.
  apply (f_equal list_ascii_of_string) in E. unfold repr in E.
  rewrite list_ascii_of_string_of_list_ascii in E. rewrite E in Hp.
  rewrite Forall_forall in Hp. apply forallb_forall in Hp. congruence.
Qed.

Lemma repr_one_line (x : float) : valid x = true -> one_line (repr x).
Proof.
  intros Hv Hin. pose proof (repr_chars_plain x Hv) as Hp.
  unfold repr in Hin. rewrite list_ascii_of_string_of_list_ascii in Hin.
  rewrite Forall_forall in Hp. specialize (Hp _ Hin). discriminate.
Qed.

Lemma sum_valid (a b : string) (x y : float) :
  float_of_string a = Some x -> float_of_string b = Some y ->
  valid (add x y) = true.
Proof.
  intros Ha Hb. apply add_valid; eapply float_of_string_valid; eassumption.
Qed.

Lemma repr_defined_valid (x : float) : valid x = true -> repr_defined x.
Proof.
  intros Hv. destruct x as [s|s| |s m e]; cbn [repr_defined]; auto.
  destruct (dtoa_spec m e Hv) as (ds & decpt & -> & _). discriminate.
Qed.

(** What a run prints does not depend on what was printed before. *)
Lemma run_from_frame (out : string) (argv : list string) :
  run_from out argv =
  Outcome (out ++ stdout (run argv)) (status (run argv)).
Proof.
  unfold run.
  destruct (Nat.eq_dec (List.length argv) 3) as [Hlen | Hlen].
  - destruct (length_3_inv argv Hlen) as (prog & a & b & ->).
    rewrite !run_from_operands.
    destruct (float_of_string a), (float_of_string b); reflexivity.
  - rewrite !run_from_usage by assumption. reflexivity.
Qed.

(** C1: for operands [a] and [b] that [float] reads as finite numbers,
    the run with exactly [[a, b]] exits with status 0 and prints one line
    that [float] reads back as the binary64 sum [float(a) + float(b)]. *)
Theorem sum_output_parses_back (prog a b : string) (x y : float) :
  float_of_string a = Some x -> float_of_string b = Some y ->
  is_finite x = true -> is_finite y = true ->
  exists line,
    run [prog; a; b] = Outcome (line ++ newline) 0 /\
    float_of_string line = Some (add x y).
Proof.
  intros Ha Hb Hx Hy. exists (repr (add x y)). split.
  - unfold run. now rewrite run_from_operands, Ha, Hb.
  - apply repr_roundtrip.
    + now apply (sum_valid a b).
    + now apply add_finite_not_nan.
Qed.

Lemma sum_output_parses_back_witness :
  float_of_string "0.1" = Some (S754_finite false 7205759403792794 (-56)) /\
  float_of_string "0.2" = Some (S754_finite false 7205759403792794 (-55)) /\
  exists line,
    run ["sum_numbers.py"; "0.1"; "0.2"] = Outcome (line ++ newline) 0 /\
    float_of_string line =
      Some (add (S754_finite false 7205759403792794 (-56))
                (S754_finite false 7205759403792794 (-55))).
Proof.
  split; [vm_compute; reflexivity|]. split; [vm_compute; reflexivity|].
  apply (sum_output_parses_back "sum_numbers.py" "0.1" "0.2");
    vm_compute; reflexivity.
Defined.

(** C2, as stated, fails: ["inf"] is not of the lexical form of the
    specification (sign, digits, point, exponent), yet the run with
    [["inf", "3"]] prints [inf] and exits with status 0. *)
Lemma non_lexical_operand_accepted :
  lexical_float "inf" = false /\
  run ["sum_numbers.py"; "inf"; "3"] = Outcome ("inf" ++ newline) 0 /\
  run ["sum_numbers.py"; "inf"; "3"] <> Outcome (error_message ++ newline) 1.
Proof.
  split; [reflexivity|]. split; [vm_compute; reflexivity|].
  vm_compute. discriminate.
Qed.

(** C2, amended: when [float] rejects at least one of exactly two
    operands, the run exits with status 1 and prints the line
    [Error: Both arguments must be numbers.] *)
Theorem rejected_operand_reported (prog a b : string) :
  float_of_string a = None \/ float_of_string b = None ->
  run [prog; a; b] =
  Outcome ("Error: Both arguments must be numbers." ++ newline) 1.
Proof.
  intros H. unfold run. rewrite run_from_operands.
  destruct H as [-> | ->]; [reflexivity|].
  now destruct (float_of_string a).
Qed.

(** The operands [float] rejects are among those that lack the lexical
    form. *)
Lemma rejected_operand_not_lexical (a : string) :
  float_of_string a = None -> lexical_float a = false.
Proof.
  intros H. destruct (lexical_float a) eqn:E; [|reflexivity].
  now apply lexical_float_accepted in E.
Qed.

Lemma rejected_operand_reported_witness :
  (float_of_string "abc" = None \/ float_of_string "3" = None) /\
  run ["sum_numbers.py"; "abc"; "3"] =
  Outcome ("Error: Both arguments must be numbers." ++ newline) 1.
Proof.
  split; [left; vm_compute; reflexivity|].
  apply (rejected_operand_reported "sum_numbers.py" "abc" "3").
  left. vm_compute. reflexivity.
Defined.

(** C3: with zero, one, or three or more arguments after the program
    name, whatever they are, the run exits with status 1 and prints the
    usage message. *)
Theorem wrong_argument_count_usage (prog : string) (args : list string) :
  (List.length args = 0 \/ List.length args = 1 \/ 3 <= List.length args)%nat ->
  run (prog :: args) = Outcome (usage_message ++ newline) 1.
Proof.
  intros H. unfold run. apply run_from_usage. cbn [List.length]. lia.
Qed.

Lemma wrong_argument_count_usage_witness :
  (List.length ["1"; "2"; "x"] = 0 \/ List.length ["1"; "2"; "x"] = 1 \/
   3 <= List.length ["1"; "2"; "x"])%nat /\
  run ["sum_numbers.py"; "1"; "2"; "x"] = Outcome (usage_message ++ newline) 1.
Proof.
  split; [right; right; cbn [List.length]; lia|].
  apply (wrong_argument_count_usage "sum_numbers.py" ["1"; "2"; "x"]).
  right. right. cbn [List.length]. lia.
Defined.

(** C4, as stated, fails: invoked as [./sum_numbers.py] with no operand,
    the script prints neither the usage line with that name in the place
    of [<program>] nor the line with [<program>] itself; invoked under
    another name it prints the very same line. *)
Lemma usage_message_ignores_invocation_name :
  List.length ["./sum_numbers.py"] <> 3%nat /\
  stdout (run ["./sum_numbers.py"]) <> usage_for "./sum_numbers.py" ++ newline /\
  stdout (run ["./sum_numbers.py"]) <> usage_for "<program>" ++ newline /\
  stdout (run ["./sum_numbers.py"]) = stdout (run ["adder"]).
Proof.
  split; [discriminate|].
  split; [vm_compute; discriminate|].
  split; [vm_compute; discriminate | reflexivity].
Qed.

(** C4, amended: whenever the argument count check fails, the line
    printed is the fixed text
    [Usage: python sum_numbers.py <number1> <number2>], whatever name the
    script was invoked under. *)
Theorem usage_message_is_fixed (argv : list string) :
  List.length argv <> 3%nat ->
  stdout (run argv) =
  "Usage: python sum_numbers.py <number1> <number2>" ++ newline.
Proof.
  intros H. unfold run. now rewrite run_from_usage.
Qed.

Lemma usage_message_is_fixed_witness :
  List.length ["./sum_numbers.py"; "1"] <> 3%nat /\
  stdout (run ["./sum_numbers.py"; "1"]) =
  "Usage: python sum_numbers.py <number1> <number2>" ++ newline.
Proof.
  split; [discriminate|].
  apply (usage_message_is_fixed ["./sum_numbers.py"; "1"]). discriminate.
Defined.

(** C5: every run writes exactly one line, and that line is exactly one
    of the usage message, the error message and the numeric result. *)
Theorem one_line_of_three (argv : list string) :
  exists line,
    stdout (run argv) = line ++ newline /\ one_line line /\
    ((line = usage_message /\ line <> error_message /\
      ~ numeric_result argv line) \/
     (line = error_message /\ line <> usage_message /\
      ~ numeric_result argv line) \/
     (numeric_result argv line /\ line <> usage_message /\
      line <> error_message)).
Proof.
  assert (one_line usage_message) as Hu
    by (intros H; vm_compute in H; intuition discriminate).
  assert (one_line error_message) as He
    by (intros H; vm_compute in H; intuition discriminate).
  unfold run.
  destruct (Nat.eq_dec (List.length argv) 3) as [Hlen | Hlen].
  - destruct (length_3_inv argv Hlen) as (prog & a & b & ->).
    rewrite run_from_operands.
    destruct (float_of_string a) as [x|] eqn:Ha;
      [destruct (float_of_string b) as [y|] eqn:Hb|].
    + exists (repr (add x y)). cbn [stdout].
      pose proof (sum_valid a b x y Ha Hb) as Hv.
      split; [reflexivity|]. split; [now apply repr_one_line|].
      right. right. split; [|split].
      * now exists prog, a, b, x, y.
      * now apply repr_not_with_blank.
      * now apply repr_not_with_blank.
    + exists error_message. cbn [stdout].
      split; [reflexivity|]. split; [exact He|].
      right. left. split; [reflexivity|]. split; [discriminate|].
      intros (p' & a' & b' & x' & y' & [= <- <- <-] & Ha' & Hb' & _).
      congruence.
    + exists error_message. cbn [stdout].
      split; [reflexivity|]. split; [exact He|].
      right. left. split; [reflexivity|]. split; [discriminate|].
      intros (p' & a' & b' & x' & y' & [= <- <- <-] & Ha' & Hb' & _).
      congruence.
  - rewrite run_from_usage by assumption.
    exists usage_message. cbn [stdout].
    split; [reflexivity|]. split; [exact Hu|].
    left. split; [reflexivity|]. split; [discriminate|].
    intros (p' & a' & b' & x' & y' & -> & _). now apply Hlen.
Qed.

(** C6: swapping the two operands does not change what is printed, nor
    the exit status. *)
Theorem operands_commute (prog a b : string) :
  run [prog; a; b] = run [prog; b; a].
Proof.
  unfold run. rewrite !run_from_operands.
  destruct (float_of_string a) as [x|], (float_of_string b) as [y|];
    try reflexivity.
  now rewrite add_comm.
Qed.

(** C7: the operands [3] and [5] give [8.0], the operands [2.5] and
    [-1.5] give [1.0], both with exit status 0. *)
Theorem concrete_sums (prog : string) :
  run [prog; "3"; "5"] = Outcome ("8.0" ++ newline) 0 /\
  run [prog; "2.5"; "-1.5"] = Outcome ("1.0" ++ newline) 0.
Proof.
  unfold run. rewrite !run_from_operands.
  split; vm_compute; reflexivity.
Qed.

(** C8: operands outside the lexical form of the specification that the
    script nevertheless accepts: [inf] and [nan], and a number between
    blanks. *)
Theorem inf_nan_and_blanks_accepted (prog : string) :
  (lexical_float "inf" = false /\ lexical_float "nan" = false /\
   run [prog; "inf"; "nan"] = Outcome ("nan" ++ newline) 0) /\
  (lexical_float " 3 " = false /\
   run [prog; " 3 "; "5"] = Outcome ("8.0" ++ newline) 0).
Proof.
  unfold run. rewrite !run_from_operands.
  repeat split; vm_compute; reflexivity.
Qed.

(** C9: two runs on the same argument list print the same text and exit
    with the same status. *)
Theorem Run_deterministic (argv : list string) (o1 o2 : outcome) :
  Run argv o1 -> Run argv o2 -> o1 = o2.
Proof.
  intros H1 H2. apply Run_run in H1, H2. congruence.
Qed.

Lemma Run_deterministic_witness :
  Run ["sum_numbers.py"; "x"; "y"] (Outcome (error_message ++ newline) 1) /\
  Run ["sum_numbers.py"; "x"; "y"] (run ["sum_numbers.py"; "x"; "y"]) /\
  Outcome (error_message ++ newline) 1 = run ["sum_numbers.py"; "x"; "y"].
Proof.
  assert (Run ["sum_numbers.py"; "x"; "y"]
            (Outcome (error_message ++ newline) 1)) as H1
    by (apply Run_error; left; vm_compute; reflexivity).
  assert (Run ["sum_numbers.py"; "x"; "y"] (run ["sum_numbers.py"; "x"; "y"]))
    as H2 by (now apply Run_run).
  split; [exact H1|]. split; [exact H2|].
  exact (Run_deterministic _ _ _ H1 H2).
Defined.

(** C10: every run ends, at the usage exit, at the error exit or after
    printing the sum; in the last case the digit loop of [repr] has come
    to its end too. *)
Theorem run_terminates (argv : list string) :
  exists o,
    Run argv o /\ run argv = o /\
    ((stdout o = usage_message ++ newline /\ status o = 1) \/
     (stdout o = error_message ++ newline /\ status o = 1) \/
     (exists x y,
        stdout o = repr (add x y) ++ newline /\ status o = 0 /\
        repr_defined (add x y))).
Proof.
  exists (run argv). split; [now apply Run_run|]. split; [reflexivity|].
  unfold run.
  destruct (Nat.eq_dec (List.length argv) 3) as [Hlen | Hlen].
  - destruct (length_3_inv argv Hlen) as (prog & a & b & ->).
    rewrite run_from_operands.
    destruct (float_of_string a) as [x|] eqn:Ha;
      [destruct (float_of_string b) as [y|] eqn:Hb|].
    + right. right. exists x, y. cbn [stdout status].
      split; [reflexivity|]. split; [reflexivity|].
      apply repr_defined_valid. now apply (sum_valid a b).
    + right. left. now split.
    + right. left. now split.
  - rewrite run_from_usage by assumption. left. now split.
Qed.

End Claims.

(** ** More on the runs of the script *)

Section Runs.

Import B64 PyFloat PyRepr Script Operands.
Local Open Scope string_scope.

Lemma list_ascii_of_string_app (s t : string) :
  list_ascii_of_string (s ++ t) =
  (list_ascii_of_string s ++ list_ascii_of_string t)%list.
Proof.
  induction s as [|c s IH]; [reflexivity|].
  cbn [append list_ascii_of_string app]. now rewrite IH.
Qed.

Lemma append_inv_tail (s1 s2 t : string) : s1 ++ t = s2 ++ t -> s1 = s2.
Proof.
  intros E. apply (f_equal list_ascii_of_string) in E.
  rewrite !list_ascii_of_string_app in E. apply app_inv_tail in E.
  apply (f_equal string_of_list_ascii) in E.
  now rewrite !string_of_list_ascii_of_string in E.
Qed.

(** [float(repr(x))] is [x] for NaN as well, all NaNs being one. *)
Lemma repr_roundtrip_all (x : float) :
  valid x = true -> float_of_string (repr x) = Some x.
Proof.
  intros Hv. destruct (is_nan x) eqn:E.
  - destruct x; try discriminate. vm_compute. reflexivity.
  - now apply repr_roundtrip.
Qed.

(** X1: which of the three outcomes a run has is decided by the argument
    list alone: the usage line exactly when there are not two operands,
    the error line exactly when one of two operands is rejected, status
    0 exactly when both are accepted; no other status than 0 and 1
    occurs. *)
Theorem outcome_by_arguments (argv : list string) :
  (stdout (run argv) = usage_message ++ newline <->
   List.length argv <> 3%nat) /\
  (stdout (run argv) = error_message ++ newline <->
   exists prog a b, argv = [prog; a; b] /\
     (float_of_string a = None \/ float_of_string b = None)) /\
  (status (run argv) = 0 <->
   exists prog a b, argv = [prog; a; b] /\
     float_of_string a <> None /\ float_of_string b <> None) /\
  (status (run argv) = 0 \/ status (run argv) = 1).
Proof.
  unfold run.
  destruct (Nat.eq_dec (List.length argv) 3) as [Hlen | Hlen].
  - destruct (length_3_inv argv Hlen) as (prog & a & b & ->).
    rewrite run_from_operands.
    destruct (float_of_string a) as [x|] eqn:Ha;
      [destruct (float_of_string b) as [y|] eqn:Hb|];
      cbn [stdout status append].
    + pose proof (sum_valid a b x y Ha Hb) as Hv.
      split; [|split; [|split]].
      * split; [|intros H; now elim H].
        intros E. apply append_inv_tail in E.
        now apply repr_not_with_blank in E.
      * split.
        -- intros E. apply append_inv_tail in E.
           now apply repr_not_with_blank in E.
        -- intros (p' & a' & b' & [= <- <- <-] & [H | H]); congruence.
      * split; [|reflexivity]. intros _. exists prog, a, b.
        repeat split; congruence.
      * now left.
    + split; [|split; [|split]].
      * split; [discriminate | intros H; now elim H].
      * split; [|reflexivity]. intros _. exists prog, a, b. auto.
      * split; [discriminate|].
        intros (p' & a' & b' & [= <- <- <-] & _ & H). congruence.
      * now right.
    + split; [|split; [|split]].
      * split; [discriminate | intros H; now elim H].
      * split; [|reflexivity]. intros _. exists prog, a, b. auto.
      * split; [discriminate|].
        intros (p' & a' & b' & [= <- <- <-] & H & _). congruence.
      * now right.
  - rewrite run_from_usage by assumption. cbn [stdout status append].
    split; [|split; [|split]].
    + split; [now intros _ | reflexivity].
    + split; [discriminate|]. intros (p' & a' & b' & -> & _). now elim Hlen.
    + split; [discriminate|]. intros (p' & a' & b' & -> & _). now elim Hlen.
    + now right.
Qed.

(** X2: whenever both operands are accepted, infinities and NaN
    included, the printed line is itself accepted by [float] and reads
    back as the sum. *)
Theorem printed_sum_reads_back (prog a b : string) (x y : float) :
  float_of_string a = Some x -> float_of_string b = Some y ->
  exists line,
    run [prog; a; b] = Outcome (line ++ newline) 0 /\
    float_of_string line = Some (add x y).
Proof.
  intros Ha Hb. exists (repr (add x y)). split.
  - unfold run. now rewrite run_from_operands, Ha, Hb.
  - apply repr_roundtrip_all. now apply (sum_valid a b).
Qed.

Lemma printed_sum_reads_back_witness :
  float_of_string "1e308" =
    Some (S754_finite false 5010420900022432 971) /\
  float_of_string "-Infinity" = Some (S754_infinity true) /\
  exists line,
    run ["sum_numbers.py"; "1e308"; "-Infinity"] =
      Outcome (line ++ newline) 0 /\
    float_of_string line =
      Some (add (S754_finite false 5010420900022432 971)
                (S754_infinity true)).
Proof.
  split; [vm_compute; reflexivity|]. split; [vm_compute; reflexivity|].
  apply (printed_sum_reads_back "sum_numbers.py" "1e308" "-Infinity");
    vm_compute; reflexivity.
Defined.

(** X3: the name the script runs under has no effect on what it
    prints or how it exits. *)
Theorem program_name_irrelevant (prog prog' : string) (args : list string) :
  run (prog :: args) = run (prog' :: args).
Proof.
  unfold run.
  destruct (Nat.eq_dec (List.length args) 2) as [Hlen | Hlen].
  - destruct args as [|a [|b [|c r]]]; try discriminate.
    now rewrite !run_from_operands.
  - rewrite !run_from_usage; [reflexivity | |]; cbn [List.length]; lia.
Qed.

End Runs.

(** ** Blanks around an operand *)

Section Blanks.

Import B64 PyFloat PyRepr Script Operands.

Lemma isspace_ascii (c : ascii) :
  Py_ISSPACE c = true -> (code c <? 127) = true /\ (code c <? 128) = true.
Proof.
  unfold Py_ISSPACE. intros H. apply orb_true_iff in H.
  split; apply Z.ltb_lt; destruct H as [H | H].
  - apply andb_true_iff in H as [_ H]. apply Z.leb_le in H. lia.
  - apply Z.eqb_eq in H. lia.
  - apply andb_true_iff in H as [_ H]. apply Z.leb_le in H. lia.
  - apply Z.eqb_eq in H. lia.
Qed.

Lemma lstrip_transform_lead (c : ascii) (l : list ascii) :
  Py_ISSPACE c = true ->
  lstrip (transform (c :: l)) = lstrip (transform l).
Proof.
  intros Hc. destruct (isspace_ascii c Hc) as [H127 H128].
  unfold transform. cbn [forallb]. rewrite H128. cbn [andb].
  destruct (forallb (fun c0 => code c0 <? 128) l).
  - cbn [lstrip]. now rewrite Hc.
  - cbn [transform_chars]. rewrite H127. cbn [lstrip]. now rewrite Hc.
Qed.

Lemma transform_chars_snoc (c : ascii) (l : list ascii) :
  (code c <? 127) = true ->
  transform_chars (l ++ [c]) = transform_chars l ++ [c] \/
  transform_chars (l ++ [c]) = transform_chars l.
Proof.
  intros Hc. induction l as [|a l IH]; cbn [app transform_chars].
  - rewrite Hc. now left.
  - destruct (code a <? 127); [|destruct (unicode_space_high a)].
    + destruct IH as [-> | ->]; [now left | now right].
    + destruct IH as [-> | ->]; [now left | now right].
    + now right.
Qed.

Lemma transform_snoc (c : ascii) (l : list ascii) :
  Py_ISSPACE c = true ->
  transform (l ++ [c]) = transform l ++ [c] \/
  transform (l ++ [c]) = transform l.
Proof.
  intros Hc. destruct (isspace_ascii c Hc) as [H127 H128].
  unfold transform. rewrite forallb_app. cbn [forallb]. rewrite H128.
  rewrite !andb_true_r.
  destruct (forallb (fun c0 => code c0 <? 128) l); [now left|].
  now apply transform_chars_snoc.
Qed.

Lemma lstrip_snoc (c : ascii) (l : list ascii) :
  Py_ISSPACE c = true ->
  lstrip (l ++ [c]) =
  match lstrip l with [] => [] | t => t ++ [c] end.
Proof.
  intros Hc. induction l as [|a l IH]; cbn [app lstrip].
  - now rewrite Hc.
  - destruct (Py_ISSPACE a); [exact IH | reflexivity].
Qed.

Lemma rstrip_snoc (c c0 : ascii) (r : list ascii) :
  Py_ISSPACE c = true -> rstrip ((c0 :: r) ++ [c]) = rstrip (c0 :: r).
Proof.
  intros Hc. cbn [app rstrip]. rewrite rev_app_distr. cbn [rev app lstrip].
  now rewrite Hc.
Qed.

Lemma float_of_chars_lead (c : ascii) (l : list ascii) :
  Py_ISSPACE c = true -> float_of_chars (c :: l) = float_of_chars l.
Proof.
  intros Hc. unfold float_of_chars. now rewrite lstrip_transform_lead.
Qed.

Lemma float_of_chars_trail (c : ascii) (l : list ascii) :
  Py_ISSPACE c = true -> float_of_chars (l ++ [c]) = float_of_chars l.
Proof.
  intros Hc. unfold float_of_chars.
  destruct (transform_snoc c l Hc) as [-> | ->]; [|reflexivity].
  rewrite lstrip_snoc by assumption.
  destruct (lstrip (transform l)) as [|c0 r]; [reflexivity|].
  change (c0 :: r ++ [c])%list with ((c0 :: r) ++ [c])%list.
  cbv iota beta. change ((c0 :: r) ++ [c])%list with (c0 :: (r ++ [c]))%list.
  cbv iota beta.
  change (c0 :: (r ++ [c]))%list with ((c0 :: r) ++ [c])%list.
  now rewrite rstrip_snoc.
Qed.

Lemma float_of_chars_padded (w1 w2 l : list ascii) :
  forallb Py_ISSPACE w1 = true -> forallb Py_ISSPACE w2 = true ->
  float_of_chars (w1 ++ l ++ w2) = float_of_chars l.
Proof.
  intros H1 H2.
  transitivity (float_of_chars (l ++ w2)).
  - clear H2. induction w1 as [|c w1 IH]; [reflexivity|].
    cbn [forallb] in H1. apply andb_true_iff in H1 as [Hc H1].
    cbn [app]. rewrite float_of_chars_lead by assumption. now apply IH.
  - clear H1. induction w2 as [|c w2 IH] using rev_ind.
    + now rewrite app_nil_r.
    + rewrite forallb_app in H2. apply andb_true_iff in H2 as [H2 Hc].
      cbn [forallb] in Hc. rewrite andb_true_r in Hc.
      rewrite app_assoc, float_of_chars_trail by assumption. now apply IH.
Qed.

Lemma float_of_string_padded (w1 w2 s : string) :
  blank w1 = true -> blank w2 = true ->
  float_of_string (w1 ++ s ++ w2) = float_of_string s.
Proof.
  intros H1 H2. unfold float_of_string.
  rewrite !list_ascii_of_string_app. now apply float_of_chars_padded.
Qed.

Local Open Scope string_scope.

(** X4: blanks before and after an operand (space, tab, line feed,
    vertical tab, form feed, carriage return) change nothing. *)
Theorem blanks_around_operands_ignored
    (prog a b w1 w2 w3 w4 : string) :
  blank w1 = true -> blank w2 = true ->
  blank w3 = true -> blank w4 = true ->
  run [prog; w1 ++ a ++ w2; w3 ++ b ++ w4] = run [prog; a; b].
Proof.
  intros H1 H2 H3 H4. unfold run. rewrite !run_from_operands.
  now rewrite !float_of_string_padded.
Qed.

Lemma blanks_around_operands_ignored_witness :
  blank "  " = true /\ blank " " = true /\
  blank "" = true /\ blank "   " = true /\
  run ["sum_numbers.py"; "  " ++ "2.5" ++ " "; "" ++ "-1.5" ++ "   "] =
  run ["sum_numbers.py"; "2.5"; "-1.5"].
Proof.
  repeat (split; [reflexivity|]).
  apply (blanks_around_operands_ignored
           "sum_numbers.py" "2.5" "-1.5" "  " " " "" "   ");
    reflexivity.
Defined.

End Blanks.

(** ** The shape of the printed sum *)

Section Shape.

Import B64 PyFloat PyRepr Script Operands.
Local Open Scope string_scope.

(** A finite float is printed in the lexical form of the operands. *)
Lemma repr_lexical (x : float) :
  valid x = true -> lexical_float (repr x) = is_finite x.
Proof.
  intros Hv. unfold lexical_float, repr.
  rewrite list_ascii_of_string_of_list_ascii.
  destruct x as [s|s| |s m e]; cbn [repr_chars is_finite].
  - destruct s; reflexivity.
  - destruct s; reflexivity.
  - reflexivity.
  - destruct (dtoa_spec m e Hv) as (ds & decpt & -> & Hne & Hds & _).
    rewrite lex_numeral_signed by now apply layout_starts_with_digit.
    destruct (layout_lex ds decpt Hne Hds) as (ip & fp & ex & -> & _).
    reflexivity.
Qed.

Lemma add_nan_cases (x y : float) :
  x = S754_nan \/ y = S754_nan \/
  (exists s, x = S754_infinity s /\ y = S754_infinity (negb s)) ->
  add x y = S754_nan.
Proof.
  intros [-> | [-> | (s & -> & ->)]].
  - reflexivity.
  - now destruct x.
  - now destruct s.
Qed.

(** X5: NaN propagates.  When an operand is NaN, or the operands are
    infinities of opposite sign, the run prints [nan] and exits with
    status 0. *)
Theorem nan_propagates (prog a b : string) (x y : float) :
  float_of_string a = Some x -> float_of_string b = Some y ->
  x = S754_nan \/ y = S754_nan \/
  (exists s, x = S754_infinity s /\ y = S754_infinity (negb s)) ->
  run [prog; a; b] = Outcome ("nan" ++ newline) 0.
Proof.
  intros Ha Hb H. unfold run.
  now rewrite run_from_operands, Ha, Hb, (add_nan_cases x y H).
Qed.

Lemma nan_propagates_witness :
  float_of_string "inf" = Some (S754_infinity false) /\
  float_of_string "-inf" = Some (S754_infinity true) /\
  run ["sum_numbers.py"; "inf"; "-inf"] = Outcome ("nan" ++ newline) 0.
Proof.
  split; [vm_compute; reflexivity|]. split; [vm_compute; reflexivity|].
  apply (nan_propagates "sum_numbers.py" "inf" "-inf"
           (S754_infinity false) (S754_infinity true));
    [vm_compute; reflexivity | vm_compute; reflexivity |].
  right. right. now exists false.
Defined.

(** X6: the printed sum has the lexical form of the operands exactly
    when the sum is finite; otherwise the line is [inf], [-inf] or
    [nan]. *)
Theorem printed_sum_shape (prog a b : string) (x y : float) :
  float_of_string a = Some x -> float_of_string b = Some y ->
  exists line,
    run [prog; a; b] = Outcome (line ++ newline) 0 /\
    lexical_float line = is_finite (add x y) /\
    (add x y = S754_infinity false -> line = "inf") /\
    (add x y = S754_infinity true -> line = "-inf") /\
    (add x y = S754_nan -> line = "nan").
Proof.
  intros Ha Hb. exists (repr (add x y)). split; [|split; [|split; [|split]]].
  - unfold run. now rewrite run_from_operands, Ha, Hb.
  - apply repr_lexical. now apply (sum_valid a b).
  - now intros ->.
  - now intros ->.
  - now intros ->.
Qed.

Lemma printed_sum_shape_witness :
  float_of_string "1e308" =
    Some (S754_finite false 5010420900022432 971) /\
  exists line,
    run ["sum_numbers.py"; "1e308"; "1e308"] = Outcome (line ++ newline) 0 /\
    lexical_float line =
      is_finite (add (S754_finite false 5010420900022432 971)
                     (S754_finite false 5010420900022432 971)) /\
    (add (S754_finite false 5010420900022432 971)
         (S754_finite false 5010420900022432 971) = S754_infinity false ->
     line = "inf") /\
    (add (S754_finite false 5010420900022432 971)
         (S754_finite false 5010420900022432 971) = S754_infinity true ->
     line = "-inf") /\
    (add (S754_finite false 5010420900022432 971)
         (S754_finite false 5010420900022432 971) = S754_nan ->
     line = "nan").
Proof.
  split; [vm_compute; reflexivity|].
  apply (printed_sum_shape "sum_numbers.py" "1e308" "1e308");
    vm_compute; reflexivity.
Defined.

(** X7: with finite operands the run never prints [nan]: the line is a
    numeral, or [inf] or [-inf] when the sum overflows. *)
Theorem finite_operands_never_nan (prog a b : string) (x y : float) :
  float_of_string a = Some x -> float_of_string b = Some y ->
  is_finite x = true -> is_finite y = true ->
  exists line,
    run [prog; a; b] = Outcome (line ++ newline) 0 /\
    line <> "nan" /\
    (lexical_float line = true \/ line = "inf" \/ line = "-inf").
Proof.
  intros Ha Hb Hx Hy. exists (repr (add x y)).
  split; [unfold run; now rewrite run_from_operands, Ha, Hb|].
  pose proof (add_finite_not_nan x y Hx Hy) as Hnan.
  pose proof (repr_lexical _ (sum_valid a b x y Ha Hb)) as Hlex.
  destruct (add x y) as [s|[]| |s m e]; cbn [is_finite] in Hlex.
  - split; [|now left]. intros E. rewrite E in Hlex. discriminate.
  - split; [vm_compute; discriminate | right; right; reflexivity].
  - split; [vm_compute; discriminate | right; left; reflexivity].
  - now elim Hnan.
  - split; [|now left]. intros E. rewrite E in Hlex. discriminate.
Qed.

Lemma finite_operands_never_nan_witness :
  float_of_string "-1e308" =
    Some (S754_finite true 5010420900022432 971) /\
  is_finite (S754_finite true 5010420900022432 971) = true /\
  exists line,
    run ["sum_numbers.py"; "-1e308"; "-1e308"] = Outcome (line ++ newline) 0 /\
    line <> "nan" /\
    (lexical_float line = true \/ line = "inf" \/ line = "-inf").
Proof.
  split; [vm_compute; reflexivity|]. split; [reflexivity|].
  apply (finite_operands_never_nan "sum_numbers.py" "-1e308" "-1e308"
           (S754_finite true 5010420900022432 971)
           (S754_finite true 5010420900022432 971));
    vm_compute; reflexivity.
Defined.

(** X8: operands of the lexical form (optional sign, digits, optional
    point, optional exponent) are always accepted: the run exits with
    status 0 and prints a line that is not an error message. *)
Theorem lexical_operands_accepted (prog a b : string) :
  lexical_float a = true -> lexical_float b = true ->
  status (run [prog; a; b]) = 0 /\
  exists x y,
    float_of_string a = Some x /\ float_of_string b = Some y /\
    stdout (run [prog; a; b]) = repr (add x y) ++ newline.
Proof.
  intros Ha Hb.
  apply lexical_float_accepted in Ha, Hb.
  destruct (float_of_string a) as [x|] eqn:Ea; [|contradiction].
  destruct (float_of_string b) as [y|] eqn:Eb; [|contradiction].
  unfold run. rewrite run_from_operands, Ea, Eb. cbn [status stdout].
  split; [reflexivity|]. now exists x, y.
Qed.

Lemma lexical_operands_accepted_witness :
  lexical_float "+.5e-3" = true /\ lexical_float "12." = true /\
  status (run ["sum_numbers.py"; "+.5e-3"; "12."]) = 0 /\
  exists x y,
    float_of_string "+.5e-3" = Some x /\ float_of_string "12." = Some y /\
    stdout (run ["sum_numbers.py"; "+.5e-3"; "12."]) =
      repr (add x y) ++ newline.
Proof.
  split; [reflexivity|]. split; [reflexivity|].
  apply (lexical_operands_accepted "sum_numbers.py" "+.5e-3" "12.");
    reflexivity.
Defined.

(** X9: the printed sum is a fixed point: given back as an operand
    together with [0], it is printed again unchanged, unless it is the
    negative zero, whose sum with [0] is the positive zero. *)
Theorem printed_sum_fixed_point (prog a b line : string) :
  run [prog; a; b] = Outcome (line ++ newline) 0 ->
  line <> "-0.0" ->
  run [prog; line; "0"] = Outcome (line ++ newline) 0.
Proof.
  unfold run. rewrite !run_from_operands. cbn [append].
  destruct (float_of_string a) as [x|] eqn:Ha;
    [destruct (float_of_string b) as [y|] eqn:Hb|]; try discriminate.
  intros [= E] Hnz. apply append_inv_tail in E. subst line.
  pose proof (sum_valid a b x y Ha Hb) as Hv.
  rewrite (repr_roundtrip_all _ Hv).
  assert (float_of_string "0" = Some (S754_zero false)) as ->
    by (vm_compute; reflexivity).
  assert (add (add x y) (S754_zero false) = add x y) as ->; [|reflexivity].
  destruct (add x y) as [[]|s| |s m e]; try reflexivity.
  now elim Hnz.
Qed.

Lemma printed_sum_fixed_point_witness :
  run ["sum_numbers.py"; "0.1"; "0.2"] =
    Outcome ("0.30000000000000004" ++ newline) 0 /\
  "0.30000000000000004" <> "-0.0" /\
  run ["sum_numbers.py"; "0.30000000000000004"; "0"] =
    Outcome ("0.30000000000000004" ++ newline) 0.
Proof.
  split; [vm_compute; reflexivity|]. split; [discriminate|].
  apply (printed_sum_fixed_point "sum_numbers.py" "0.1" "0.2");
    [vm_compute; reflexivity | discriminate].
Defined.

End Shape.

(** ** Integer operands *)

Section Integers.

Import B64 PyFloat PyRepr Script Operands.

(** The float of a positive integer below [2^53]: its significand and
    exponent. *)
Lemma of_int_pos (k : Z) :
  0 < k < 2 ^ 53 ->
  exists q,
    of_int k = S754_finite false q (Z.log2 k - 52) /\
    Zpos q = k * 2 ^ (52 - Z.log2 k) /\
    2 ^ 52 <= Zpos q < 2 ^ 53 /\
    0 <= Z.log2 k <= 52.
Proof.
  intros [Hk Hk53].
  destruct (Z.log2_spec k Hk) as [Hlo Hhi].
  pose proof (Z.log2_nonneg k) as Hl0.
  assert (Z.log2 k < 53) as Hl by (apply Z.log2_lt_pow2; lia).
  pose proof (pow2_pos (52 - Z.log2 k) ltac:(lia)) as Hp.
  assert (2 ^ 52 = 2 ^ Z.log2 k * 2 ^ (52 - Z.log2 k)) as E52.
  { rewrite <- Z.pow_add_r by lia. f_equal. lia. }
  assert (2 ^ 53 = 2 ^ Z.succ (Z.log2 k) * 2 ^ (52 - Z.log2 k)) as E53.
  { rewrite <- Z.pow_add_r by lia. f_equal. lia. }
  assert (2 ^ 52 <= k * 2 ^ (52 - Z.log2 k) < 2 ^ 53) as Hq.
  { rewrite E52, E53. nia. }
  unfold of_int. destruct k as [|p|p]; try lia.
  destruct (Zpos p * 2 ^ (52 - Z.log2 (Zpos p))) as [|q|q] eqn:Eq; try lia.
  exists q. repeat split; try lia.
Qed.

Lemma of_int_valid (k : Z) : 0 <= k < 2 ^ 53 -> valid (of_int k) = true.
Proof.
  intros Hk. destruct (Z.eq_dec k 0) as [-> | Hnz]; [reflexivity|].
  destruct (of_int_pos k ltac:(lia)) as (q & -> & _ & Hq & Hl).
  apply bounded_iff. lia.
Qed.

(** [float] reads a positive integer below [2^53] exactly. *)
Lemma round_ratio_int (k : Z) :
  0 < k < 2 ^ 53 -> round_ratio false k 1 = of_int k.
Proof.
  intros Hk. destruct (of_int_pos k Hk) as (q & -> & Eq & Hq & Hl).
  apply round_ratio_interval; try lia.
  - apply bounded_iff. lia.
  - unfold in_interval, initial. cbv zeta.
    cbn [sc_b sc_S sc_mlo sc_mhi].
    replace (Z.log2 k - 52 + 1074) with (Z.log2 k + 1022) by lia.
    pose proof (pow2_pos (Z.log2 k + 1022) ltac:(lia)) as Hp.
    assert (Zpos q * 2 ^ (Z.log2 k + 1022) = k * 2 ^ 1074) as Eval.
    { rewrite Eq, <- Z.mul_assoc, <- Z.pow_add_r by lia.
      do 2 f_equal. lia. }
    set (P := 2 ^ (Z.log2 k + 1022)) in *. set (K := 2 ^ 1074) in *.
    set (f := if boundary q (Z.log2 k - 52) then 2 else 1).
    assert (1 <= f <= 2) as Hf by (unfold f; destruct (boundary _ _); lia).
    assert (2 * f * Zpos q * P = 2 * f * K * k) as Eb
      by (rewrite <- !Z.mul_assoc, Eval; ring).
    split; apply bound_refl_lt; nia.
Qed.

Lemma lex_integer (s : bool) (ip : list Z) :
  Forall is_decimal_digit ip -> ip <> [] ->
  lex_unsigned s (render_digits ip) = Some (Numeral s ip [] 0).
Proof.
  intros Hip Hne. unfold lex_unsigned.
  rewrite (take_digits_render_end ip Hip).
  destruct ip; [contradiction | reflexivity].
Qed.

Lemma digits_of_head (n : Z) :
  0 <= n -> starts_with_digit (render_digits (digits_of n)) = true.
Proof.
  intros Hn. destruct (digits_of_spec n Hn) as (Hne & Hd & _).
  destruct (digits_of n) as [|d l]; [contradiction|].
  inversion Hd as [|? ? Hd0 _]; subst.
  cbn [render_digits map starts_with_digit]. unfold is_digit.
  now rewrite digit_roundtrip.
Qed.

(** [float(str(k))] for a non-negative integer [k] below [2^53]. *)
Lemma float_of_decimal (k : Z) :
  0 <= k < 2 ^ 53 -> float_of_string (decimal k) = Some (of_int k).
Proof.
  intros Hk. unfold float_of_string, decimal.
  rewrite list_ascii_of_string_of_list_ascii.
  destruct (digits_of_spec k ltac:(lia)) as (Hne & Hd & Hv).
  rewrite float_of_chars_plain.
  - unfold lex_numeral.
    rewrite parse_sign_digit by (apply digits_of_head; lia).
    rewrite lex_integer by assumption.
    unfold float_of_numeral. cbn [num_sign num_int num_frac num_exp].
    cbv zeta. rewrite app_nil_r, Hv. cbn [List.length].
    change (0 - Z.of_nat 0) with 0. change (scale 10 0) with 1.
    change (scale 10 (- 0)) with 1. rewrite Z.mul_1_r.
    destruct (Z.eqb_spec k 0) as [-> | Hnz]; [reflexivity|].
    f_equal. apply round_ratio_int. lia.
  - intros E. apply Hne. destruct (digits_of k); [reflexivity | discriminate].
  - now apply render_digits_plain.
Qed.

(** *** Exact addition *)

Lemma shr_1_even (k : Z) :
  0 <= k ->
  shr_1 (Build_shr_record (2 * k) false false) = Build_shr_record k false false.
Proof.
  intros Hk. destruct k as [|p|p]; try lia; reflexivity.
Qed.

Lemma iter_shr_exact (p : positive) :
  forall k, 0 <= k ->
  iter_pos shr_1 p (Build_shr_record (k * 2 ^ Zpos p) false false) =
  Build_shr_record k false false.
Proof.
  induction p as [p IH | p IH |]; intros k Hk; cbn [iter_pos].
  - assert (0 < 2 ^ Zpos p) as Hp by (apply pow2_pos; lia).
    rewrite pow2_xI.
    replace (k * (2 * 2 ^ Zpos p * 2 ^ Zpos p))
      with (2 * (k * 2 ^ Zpos p * 2 ^ Zpos p)) by ring.
    rewrite shr_1_even by nia. rewrite IH by nia. now apply IH.
  - assert (0 < 2 ^ Zpos p) as Hp by (apply pow2_pos; lia).
    rewrite pow2_xO. rewrite Z.mul_assoc.
    rewrite IH by nia. now apply IH.
  - change (2 ^ 1) with 2. rewrite Z.mul_comm. now apply shr_1_even.
Qed.

(** A significand that is a canonical one times a power of two is
    rounded to the canonical one, without error. *)
Lemma binary_round_exact (s : bool) (M Q : positive) (ez E : Z) :
  2 ^ 52 <= Zpos Q < 2 ^ 53 -> -1074 <= E <= 971 -> ez <= E ->
  Zpos M = Zpos Q * 2 ^ (E - ez) ->
  binary_round prec emax s M ez = S754_finite s Q E.
Proof.
  intros HQ HE Hez HM.
  assert (Z.log2 (Zpos Q) = 52) as HlQ.
  { apply Z.log2_unique; [lia|]. change (52 + 1) with 53. lia. }
  assert (Z.log2 (Zpos M) = E - ez + 52) as HlM.
  { rewrite HM, Z.log2_mul_pow2, HlQ by lia. lia. }
  unfold binary_round, shl_align.
  rewrite digits2_pos_log2, HlM, fexp_eq.
  replace (Z.max (E - ez + 52 + 1 + ez - 53) (-1074) - ez) with (E - ez)
    by lia.
  assert (binary_round_aux prec emax s (Zpos M) ez loc_Exact =
          S754_finite s Q E) as Haux.
  { unfold binary_round_aux, shr_fexp. cbn [Zdigits2].
    rewrite digits2_pos_log2, HlM, fexp_eq.
    replace (Z.max (E - ez + 52 + 1 + ez - 53) (-1074) - ez) with (E - ez)
      by lia.
    assert (shr (shr_record_of_loc (Zpos M) loc_Exact) ez (E - ez) =
            (Build_shr_record (Zpos Q) false false, E)) as ->.
    { cbn [shr_record_of_loc]. unfold shr.
      destruct (E - ez) as [|p|p] eqn:Ed; try lia.
      - rewrite HM. change (2 ^ 0) with 1. rewrite Z.mul_1_r.
        f_equal. lia.
      - rewrite HM, iter_shr_exact by lia. f_equal. lia. }
    cbn [shr_m loc_of_shr_record round_nearest_even Zdigits2].
    rewrite digits2_pos_log2, HlQ, fexp_eq.
    replace (Z.max (52 + 1 + E - 53) (-1074) - E) with 0 by lia.
    cbn [shr_record_of_loc shr shr_m].
    assert ((E <=? emax - prec) = true) as ->
      by (apply Z.leb_le; change (emax - prec) with 971; lia).
    reflexivity. }
  destruct (E - ez) as [|p|p] eqn:Ed; try lia; exact Haux.
Qed.

(** The sum of two integer floats is the float of the integer sum, as
    long as that is below [2^53]. *)
Lemma add_of_int (m n : Z) :
  0 <= m -> 0 <= n -> m + n < 2 ^ 53 ->
  add (of_int m) (of_int n) = of_int (m + n).
Proof.
  intros Hm Hn Hsum.
  destruct (Z.eq_dec m 0) as [-> | Hmz].
  { cbn [Z.add]. destruct (Z.eq_dec n 0) as [-> | Hnz]; [reflexivity|].
    destruct (of_int_pos n ltac:(lia)) as (q & -> & _). reflexivity. }
  destruct (Z.eq_dec n 0) as [-> | Hnz].
  { rewrite Z.add_0_r.
    destruct (of_int_pos m ltac:(lia)) as (q & -> & _). reflexivity. }
  destruct (of_int_pos m ltac:(lia)) as (qm & -> & Eqm & Hqm & Hlm).
  destruct (of_int_pos n ltac:(lia)) as (qn & -> & Eqn & Hqn & Hln).
  destruct (of_int_pos (m + n) ltac:(lia)) as (Q & -> & EQ & HQ & HL).
  assert (Z.log2 m <= Z.log2 (m + n)) as Hmono1 by (apply Z.log2_le_mono; lia).
  assert (Z.log2 n <= Z.log2 (m + n)) as Hmono2 by (apply Z.log2_le_mono; lia).
  set (lm := Z.log2 m) in *. set (ln := Z.log2 n) in *.
  set (L := Z.log2 (m + n)) in *.
  unfold add, SFadd.
  set (ez := Z.min (lm - 52) (ln - 52)).
  assert (forall (q : positive) (k l : Z),
            0 <= l <= 52 -> ez <= l - 52 ->
            Zpos q = k * 2 ^ (52 - l) ->
            Zpos (fst (shl_align q (l - 52) ez)) = k * 2 ^ (- ez)) as Halign.
  { intros q k l Hl Hle Eq. unfold shl_align.
    destruct (ez - (l - 52)) as [|p|p] eqn:Ed; try lia; cbn [fst].
    - rewrite Eq. do 2 f_equal. lia.
    - rewrite iter_xO_pow2, Eq, <- Z.mul_assoc, <- Z.pow_add_r by lia.
      do 2 f_equal. lia. }
  rewrite (Halign qm m lm) by (unfold ez; lia).
  rewrite (Halign qn n ln) by (unfold ez; lia).
  cbn [cond_Zopp].
  pose proof (pow2_pos (- ez) ltac:(unfold ez; lia)) as Hp.
  replace (m * 2 ^ (- ez) + n * 2 ^ (- ez)) with ((m + n) * 2 ^ (- ez))
    by ring.
  assert (0 < (m + n) * 2 ^ (- ez)) as Hpos by (apply Z.mul_pos_pos; lia).
  destruct ((m + n) * 2 ^ (- ez)) as [|M|M] eqn:EM; [lia | | lia].
  cbn [binary_normalize].
  apply binary_round_exact; try lia.
  rewrite EQ, <- Z.mul_assoc, <- Z.pow_add_r by (unfold ez; lia).
  rewrite <- EM. do 2 f_equal. lia.
Qed.

End Integers.

(** ** Printing an integer float *)

Section IntegerDigits.

Import B64 PyFloat PyRepr Script Operands.

Ltac split_ifs_in H :=
  repeat match type of H with
         | context [if ?c then _ else _] => destruct c
         end.

(** On an integer the digit loop stops at the units digit at the latest:
    with [j] digits still in front of the decimal point it adds at most
    [j + 1] digits. *)
Lemma digit_loop_integral (ev : bool) (fuel : nat) :
  forall (j : nat) b S mlo mhi acc c r res,
  0 < c -> S = c * 10 ^ Z.of_nat j -> b = c * r -> 0 <= r ->
  0 < mlo -> 0 < mhi -> 2 * mhi <= c ->
  digit_loop fuel ev b S mlo mhi acc = Some res ->
  (List.length (fst res) <= List.length acc + j + 1)%nat.
Proof.
  induction fuel as [|fuel IH];
    intros j b S mlo mhi acc c r res Hc HS Hb Hr Hmlo Hmhi Hhalf Hrun.
  - discriminate.
  - rewrite digit_loop_step in Hrun. cbv zeta in Hrun.
    assert (0 < 10 ^ Z.of_nat j) as Hpj by (apply Z.pow_pos_nonneg; lia).
    assert (b mod S = c * (r mod 10 ^ Z.of_nat j)) as Hrem.
    { subst b S. apply Z.mul_mod_distr_l; lia. }
    destruct (is_Eq (if S - mhi <? 0 then Gt else b mod S ?= S - mhi) && ev).
    { split_ifs_in Hrun; injection Hrun as <-; cbn [fst List.length]; lia. }
    destruct (is_Lt (b mod S ?= mlo) || is_Eq (b mod S ?= mlo) && ev) eqn:E2.
    { split_ifs_in Hrun; injection Hrun as <-; cbn [fst List.length]; lia. }
    destruct (is_Gt (if S - mhi <? 0 then Gt else b mod S ?= S - mhi)).
    { split_ifs_in Hrun; injection Hrun as <-; cbn [fst List.length]; lia. }
    destruct j as [|j].
    + (* at the units digit nothing is left *)
      change (10 ^ Z.of_nat 0) with 1 in Hrem. rewrite Z.mod_1_r in Hrem.
      rewrite Hrem, Z.mul_0_r in E2.
      assert ((0 ?= mlo) = Lt) as Hcmp by (apply Z.compare_lt_iff; lia).
      rewrite Hcmp in E2. discriminate.
    + pose proof (Z.mod_pos_bound r (10 ^ Z.of_nat (Datatypes.S j)) Hpj) as Hm.
      assert (List.length (fst res)
                <= List.length ((b / S)%Z :: acc) + j + 1)%nat as Hlen.
      { apply (IH j (10 * (b mod S)) S (10 * mlo) (10 * mhi) (b / S :: acc)
                 (10 * c) (r mod 10 ^ Z.of_nat (Datatypes.S j)) res);
          try lia; try exact Hrun.
        subst S. rewrite Nat2Z.inj_succ, Z.pow_succ_r by lia. ring. }
      cbn [List.length] in Hlen. lia.
Qed.

Lemma roundoff_length (acc : list Z) :
  (List.length (fst (roundoff acc)) <= Nat.max 1 (List.length acc))%nat.
Proof.
  induction acc as [|d acc IH]; cbn [roundoff]; [cbn; lia|].
  destruct (d =? 9); cbn [fst List.length] in *; lia.
Qed.

Lemma roundoff_carry (acc : list Z) :
  snd (roundoff acc) = true -> fst (roundoff acc) = [1].
Proof.
  induction acc as [|d acc IH]; cbn [roundoff]; [reflexivity|].
  destruct (d =? 9); [exact IH | discriminate].
Qed.

(** The quantities of [initial] for the float of the integer [k]. *)
Lemma initial_int (k : Z) (q : positive) :
  0 < k < 2 ^ 53 ->
  Zpos q = k * 2 ^ (52 - Z.log2 k) ->
  let x := initial q (Z.log2 k - 52) in
  sc_b x = sc_S x * k /\ 2 * sc_mhi x <= sc_S x /\
  sc_mlo x <= sc_mhi x /\ 0 < sc_mlo x /\ 0 < sc_S x.
Proof.
  intros Hk Eq. cbv zeta.
  pose proof (Z.log2_nonneg k) as Hl0.
  assert (Z.log2 k < 53) as Hl by (apply Z.log2_lt_pow2; lia).
  unfold initial. cbv zeta. cbn [sc_b sc_S sc_mlo sc_mhi].
  replace (Z.log2 k - 52 + 1074) with (Z.log2 k + 1022) by lia.
  pose proof (pow2_pos (Z.log2 k + 1022) ltac:(lia)) as Hp.
  assert (Zpos q * 2 ^ (Z.log2 k + 1022) = k * 2 ^ 1074) as Eval.
  { rewrite Eq, <- Z.mul_assoc, <- Z.pow_add_r by lia. do 2 f_equal. lia. }
  assert (2 ^ (Z.log2 k + 1022) <= 2 ^ 1074) as Hle
    by (apply Z.pow_le_mono_r; lia).
  set (P := 2 ^ (Z.log2 k + 1022)) in *. set (K := 2 ^ 1074) in *.
  set (f := if boundary q (Z.log2 k - 52) then 2 else 1).
  assert (1 <= f <= 2) as Hf by (unfold f; destruct (boundary _ _); lia).
  split; [|split; [|split; [|split]]]; nia.
Qed.

(** The digits of the float of an integer are the digits of that
    integer, without the zeros at its end. *)
Lemma dtoa_int (k : Z) (q : positive) :
  0 < k < 2 ^ 53 ->
  Zpos q = k * 2 ^ (52 - Z.log2 k) ->
  exists ds decpt,
    dtoa q (Z.log2 k - 52) = Some (ds, decpt) /\
    ds <> [] /\ Forall is_decimal_digit ds /\
    Z.of_nat (List.length ds) <= decpt /\
    digits_value ds * 10 ^ (decpt - Z.of_nat (List.length ds)) = k /\
    10 ^ (decpt - 1) <= k.
Proof.
  intros Hk Eq.
  pose proof (Z.log2_nonneg k) as Hl0.
  assert (Z.log2 k < 53) as Hl by (apply Z.log2_lt_pow2; lia).
  assert (2 ^ 52 <= Zpos q < 2 ^ 53) as Hq.
  { destruct (of_int_pos k Hk) as (q' & _ & Eq' & Hq' & _). lia. }
  assert (bounded prec emax q (Z.log2 k - 52) = true) as Hb
    by (apply bounded_iff; lia).
  destruct (dtoa_spec q _ Hb) as (ds & decpt & Hd & Hne & Hds & Hin).
  exists ds, decpt. split; [exact Hd|]. split; [exact Hne|].
  split; [exact Hds|].
  destruct (scale_to_first_digit_spec q _ Hb)
    as (c1 & c2 & Hpow & Hx & Hrange).
  destruct (initial_int k q Hk Eq) as (Eb & Hhalf & Hmm & Hmlo & HS0).
  revert Hd. unfold dtoa.
  destruct (scale_to_first_digit q (Z.log2 k - 52)) as [k10 x].
  cbn [fst snd] in *.
  set (x0 := initial q (Z.log2 k - 52)) in *.
  destruct Hpow as (Hc1 & Hc2 & Epow).
  subst x. cbn [sc_b sc_S sc_mlo sc_mhi] in *.
  rewrite Eb in Hrange.
  assert (c2 <= k * c1 < 10 * c2) as Hr by nia.
  (* the decimal exponent is not negative *)
  assert (0 <= k10) as Hk10.
  { destruct (Z.le_gt_cases 0 k10) as [|Hneg]; [assumption|].
    rewrite (scale_neg 10 (- - k10)), (scale_nonneg 10 (- k10)) in Epow by lia.
    assert (10 ^ 1 <= 10 ^ (- k10)) by (apply Z.pow_le_mono_r; lia).
    change (10 ^ 1) with 10 in *. nia. }
  rewrite (scale_nonneg 10 (- - k10)), (scale_neg 10 (- k10)) in Epow by lia.
  rewrite Z.opp_involutive, Z.mul_1_r in Epow. subst c2.
  assert (0 < 10 ^ k10) as Hp10 by (apply Z.pow_pos_nonneg; lia).
  assert (10 ^ k10 <= k < 10 * 10 ^ k10) as Hkr by nia.
  match goal with
  | |- context [digit_loop ?f ?e ?b ?S ?l ?h ?a] =>
      destruct (digit_loop f e b S l h a) as [[acc cy]|] eqn:Hrun
  end; [|intros; discriminate].
  assert (List.length (fst (acc, cy))
            <= List.length (@nil Z) + Z.to_nat k10 + 1)%nat as Hlen.
  { eapply (digit_loop_integral (Z.even (Zpos q)) _ (Z.to_nat k10)
              _ _ _ _ [] (sc_S x0 * c1) k (acc, cy)).
    8: exact Hrun.
    - nia.
    - rewrite Z2Nat.id by lia. ring.
    - rewrite Eb. ring.
    - lia.
    - nia.
    - nia.
    - nia. }
  cbn [fst List.length] in Hlen.
  assert (forall ds' decpt',
            ds' = ds -> decpt' = decpt ->
            (List.length ds' <= Z.to_nat k10 + 1)%nat ->
            decpt' = k10 + 1 \/ (decpt' = k10 + 2 /\ ds' = [1]) ->
            Z.of_nat (List.length ds) <= decpt /\
            digits_value ds * 10 ^ (decpt - Z.of_nat (List.length ds)) = k /\
            10 ^ (decpt - 1) <= k) as Hfinish.
  { intros ds' decpt' -> -> Hl' Hdec.
    assert (Z.of_nat (List.length ds) <= decpt) as Hle by lia.
    destruct Hin as [Hlo Hhi].
    apply bound_weaken in Hlo, Hhi.
    rewrite (scale_nonneg 10 (decpt - Z.of_nat (List.length ds))) in Hlo, Hhi
      by lia.
    rewrite (scale_neg 10 (Z.of_nat (List.length ds) - decpt)) in Hlo, Hhi
      by lia.
    fold x0 in Hlo, Hhi. rewrite Eb in Hlo, Hhi.
    set (V := digits_value ds * 10 ^ (decpt - Z.of_nat (List.length ds))) in *.
    assert (V = k) as HV by nia.
    split; [exact Hle|]. split; [exact HV|].
    destruct Hdec as [-> | [-> ->]].
    - replace (k10 + 1 - 1) with k10 by lia. lia.
    - exfalso. unfold V in HV. cbn [List.length] in HV.
      change (digits_value [1]) with 1 in HV.
      replace (k10 + 2 - Z.of_nat 1) with (Z.succ k10) in HV by lia.
      rewrite Z.pow_succ_r in HV by lia. lia. }
  destruct cy.
  - pose proof (roundoff_length acc) as Hrl.
    pose proof (roundoff_carry acc) as Hrc.
    destruct (roundoff acc) as [acc' carry]. cbn [fst snd] in *.
    intros [= E1 E2]. apply (Hfinish (rev acc') (if carry then k10 + 2 else k10 + 1));
      try assumption.
    + rewrite length_rev. lia.
    + destruct carry; [right | now left].
      split; [reflexivity|]. now rewrite (Hrc eq_refl).
  - intros [= E1 E2]. apply (Hfinish (rev acc) (k10 + 1)); try assumption.
    + rewrite length_rev. lia.
    + now left.
Qed.

End IntegerDigits.

Section IntegerSums.

Import B64 PyFloat PyRepr Script Operands.

Lemma string_of_list_ascii_app (a b : list ascii) :
  string_of_list_ascii (a ++ b) =
  (string_of_list_ascii a ++ string_of_list_ascii b)%string.
Proof.
  induction a as [|c a IH]; [reflexivity|].
  cbn [app string_of_list_ascii append]. now rewrite IH.
Qed.

Lemma digits_value_lt (l : list Z) :
  Forall is_decimal_digit l ->
  0 <= digits_value l < 10 ^ Z.of_nat (List.length l).
Proof.
  intros H. induction H as [|d l Hd Hl IH].
  - cbn. lia.
  - rewrite digits_value_cons. cbn [List.length].
    rewrite Nat2Z.inj_succ, Z.pow_succ_r by lia.
    unfold is_decimal_digit in Hd.
    assert (0 < 10 ^ Z.of_nat (List.length l))
      by (apply Z.pow_pos_nonneg; lia).
    nia.
Qed.

(** Two digit strings of one length and one value are the same. *)
Lemma digits_unique (l1 : list Z) :
  forall l2,
  Forall is_decimal_digit l1 -> Forall is_decimal_digit l2 ->
  List.length l1 = List.length l2 ->
  digits_value l1 = digits_value l2 -> l1 = l2.
Proof.
  induction l1 as [|d1 l1 IH]; intros [|d2 l2] H1 H2 Hlen Hval;
    try discriminate; [reflexivity|].
  inversion H1 as [|? ? Hd1 Hl1]; inversion H2 as [|? ? Hd2 Hl2]; subst.
  injection Hlen as Hlen.
  rewrite !digits_value_cons, <- Hlen in Hval.
  pose proof (digits_value_lt l1 Hl1) as B1.
  pose proof (digits_value_lt l2 Hl2) as B2. rewrite <- Hlen in B2.
  unfold is_decimal_digit in Hd1, Hd2.
  assert (d1 = d2) as -> by nia.
  f_equal. apply IH; try assumption. lia.
Qed.

Lemma digits_of_fuel_leading (fuel : nat) :
  forall n acc, 0 < n ->
  exists d l, digits_of_fuel fuel n acc = d :: l /\ 1 <= d.
Proof.
  induction fuel as [|fuel IH]; intros n acc Hn; cbn [digits_of_fuel].
  - exists n, acc. split; [reflexivity | lia].
  - destruct (Z.ltb_spec n 10) as [Hlt | Hge].
    + exists n, acc. split; [reflexivity | lia].
    + apply IH. apply Z.div_str_pos. lia.
Qed.

(** [str(k)] has as many digits as [k] needs. *)
Lemma digits_of_length (k decpt : Z) :
  0 < k -> 10 ^ (decpt - 1) <= k < 10 ^ decpt -> 1 <= decpt ->
  Z.of_nat (List.length (digits_of k)) = decpt.
Proof.
  intros Hk [Hlo Hhi] Hd.
  destruct (digits_of_spec k ltac:(lia)) as (Hne & Hdig & Hval).
  destruct (digits_of_fuel_leading (Z.to_nat (Z.log2 k)) k [] Hk)
    as (d & l & E & Hd1).
  fold (digits_of k) in E. rewrite E in *.
  apply Forall_cons_iff in Hdig as [Hd0 Hl].
  pose proof (digits_value_lt l Hl) as Bl.
  rewrite digits_value_cons in Hval. cbn [List.length].
  set (n := Z.of_nat (List.length l)) in *.
  assert (0 <= n) as Hn by (unfold n; lia).
  assert (0 < 10 ^ n) as Hp by (apply Z.pow_pos_nonneg; lia).
  unfold is_decimal_digit in Hd0.
  assert (10 ^ n <= k < 10 ^ (n + 1)) as Hk2.
  { rewrite Z.pow_add_r by lia. change (10 ^ 1) with 10. nia. }
  assert (decpt - 1 < n + 1) as H1.
  { apply (Z.pow_lt_mono_r_iff 10); lia. }
  assert (n < decpt) as H2.
  { apply (Z.pow_lt_mono_r_iff 10); lia. }
  lia.
Qed.

(** Printing an integer: the float of a non-negative integer below
    [2^53] is printed as that integer followed by [.0]. *)
Lemma repr_of_int (k : Z) :
  0 <= k < 2 ^ 53 -> repr (of_int k) = (decimal k ++ ".0")%string.
Proof.
  intros Hk. destruct (Z.eq_dec k 0) as [-> | Hnz]; [reflexivity|].
  destruct (of_int_pos k ltac:(lia)) as (q & -> & Eq & Hq & Hl).
  destruct (dtoa_int k q ltac:(lia) Eq)
    as (ds & decpt & Hd & Hne & Hds & Hle & Hval & Hlow).
  unfold repr, decimal. cbn [repr_chars with_sign]. rewrite Hd.
  assert (1 <= Z.of_nat (List.length ds)) as Hlen1
    by (destruct ds; [contradiction | cbn [List.length]; lia]).
  assert (decpt <= 16) as H16.
  { destruct (Z.le_gt_cases decpt 16) as [|Hbig]; [assumption|].
    assert (10 ^ 16 <= 10 ^ (decpt - 1)) by (apply Z.pow_le_mono_r; lia).
    assert (2 ^ 53 < 10 ^ 16) by reflexivity. lia. }
  unfold layout. cbv zeta.
  assert ((decpt <=? -4) || (16 <? decpt) = false) as ->.
  { apply orb_false_iff. split; [apply Z.leb_gt | apply Z.ltb_ge]; lia. }
  assert ((decpt <=? 0) = false) as -> by (apply Z.leb_gt; lia).
  assert ((decpt <? Z.of_nat (List.length ds)) = false) as ->
    by (apply Z.ltb_ge; lia).
  rewrite app_assoc, string_of_list_ascii_app.
  f_equal. f_equal.
  rewrite zeros_render, <- render_digits_app. f_equal.
  set (j := decpt - Z.of_nat (List.length ds)) in *.
  assert (digits_value (ds ++ repeat 0 (Z.to_nat j)) = k) as Hv1.
  { rewrite digits_value_trailing_zeros, Z2Nat.id by lia. exact Hval. }
  assert (Forall is_decimal_digit (ds ++ repeat 0 (Z.to_nat j))) as Hd1
    by (apply Forall_app; split; [assumption | apply repeat_zero_digits]).
  assert (Z.of_nat (List.length (ds ++ repeat 0 (Z.to_nat j))) = decpt)
    as Hl1 by (rewrite length_app, repeat_length; lia).
  destruct (digits_of_spec k ltac:(lia)) as (_ & Hd2 & Hv2).
  apply digits_unique; try assumption; [|congruence].
  apply Nat2Z.inj. rewrite Hl1. symmetry.
  apply digits_of_length; try lia.
  split; [exact Hlow|].
  pose proof (digits_value_lt _ Hd1) as B. rewrite Hl1, Hv1 in B. lia.
Qed.

Local Open Scope string_scope.

(** X10: integer sums are exact.  For non-negative integers [m] and [n]
    written in decimal, with [m + n] below [2^53], the run prints
    [m + n] in decimal followed by [.0] and exits with status 0. *)
Theorem integer_sums_exact (prog : string) (m n : Z) :
  0 <= m -> 0 <= n -> m + n < 2 ^ 53 ->
  run [prog; decimal m; decimal n] =
  Outcome (decimal (m + n) ++ ".0" ++ newline) 0.
Proof.
  intros Hm Hn Hsum. unfold run.
  rewrite run_from_operands.
  rewrite !float_of_decimal by lia.
  rewrite add_of_int, repr_of_int by lia.
  cbn [append]. f_equal.
  induction (decimal (m + n)) as [|c s IH]; [reflexivity|].
  cbn [append]. f_equal. exact IH.
Qed.

Lemma integer_sums_exact_witness :
  0 <= 4503599627370496 /\ 0 <= 4503599627370495 /\
  4503599627370496 + 4503599627370495 < 2 ^ 53 /\
  run ["sum_numbers.py"; decimal 4503599627370496; decimal 4503599627370495] =
  Outcome (decimal (4503599627370496 + 4503599627370495) ++ ".0" ++ newline) 0.
Proof.
  split; [lia|]. split; [lia|]. split; [reflexivity|].
  apply (integer_sums_exact "sum_numbers.py"
           4503599627370496 4503599627370495); [lia | lia | reflexivity].
Defined.

End IntegerSums.
